(** * kops rolling-update cluster: the command [cmd/kops/rollingupdatecluster.go]

    A shallow embedding of [RollingUpdateOptions], [InitDefaults] and
    [RunRollingUpdateCluster], and the properties of the rolling-update
    specification that are decided by them.

    The command talks to several collaborators (the kops clientset, the
    kubernetes API, the cloud provider, the table printer, the rolling-update
    executor of package [instancegroups]).  Each call is modelled as an
    oracle of a [World] record, and every call, print and mutation is logged
    in a trace of [Event]s, so that "before any cloud group is queried" or
    "performs zero terminations" are statements about the trace. *)

From Stdlib Require Import ZArith Lia.
From stdpp Require Import base list strings pretty sorting.

Local Open Scope string_scope.
Local Open Scope list_scope.

(** ** time.Duration *)

(** [time.Duration] is an int64 count of nanoseconds. *)
Definition Duration : Type := Z.

Definition Nanosecond : Duration := 1%Z.
Definition Microsecond : Duration := (1000 * Nanosecond)%Z.
Definition Millisecond : Duration := (1000 * Microsecond)%Z.
Definition Second : Duration := (1000 * Millisecond)%Z.
Definition Minute : Duration := (60 * Second)%Z.

Definition int64_max : Z := (2 ^ 63 - 1)%Z.

(** ** RollingUpdateOptions (lines 101-128) *)

Record RollingUpdateOptions : Type := {
  Yes : bool;
  Force : bool;
  CloudOnly : bool;
  FailOnDrainError : bool;
  FailOnValidate : bool;
  DrainInterval : Duration;
  MasterInterval : Duration;
  NodeInterval : Duration;
  BastionInterval : Duration;
  ClusterName : string;
  InstanceGroups : list string
}.

(** The Go zero value, [var options RollingUpdateOptions] (line 147). *)
Definition RollingUpdateOptions_zero : RollingUpdateOptions :=
  {| Yes := false; Force := false; CloudOnly := false;
     FailOnDrainError := false; FailOnValidate := false;
     DrainInterval := 0%Z; MasterInterval := 0%Z; NodeInterval := 0%Z;
     BastionInterval := 0%Z; ClusterName := ""; InstanceGroups := [] |}.

(** [func (o *RollingUpdateOptions) InitDefaults()] (lines 130-143): nine
    assignments through the receiver; [ClusterName] and [InstanceGroups]
    are not assigned. *)
Definition InitDefaults (o : RollingUpdateOptions) : RollingUpdateOptions :=
  {| Yes := false;
     Force := false;
     CloudOnly := false;
     FailOnDrainError := false;
     FailOnValidate := true;
     MasterInterval := (5 * Minute)%Z;
     NodeInterval := (4 * Minute)%Z;
     BastionInterval := (5 * Minute)%Z;
     DrainInterval := (90 * Second)%Z;
     ClusterName := ClusterName o;
     InstanceGroups := InstanceGroups o |}.

(** ** Objects of the kops and kubernetes APIs

    Only the fields the command and the rolling-update specification read
    are kept. *)

Module api.
(** [api.InstanceGroupRole]: the three instance-group types. *)
Inductive InstanceGroupRole : Type :=
| InstanceGroupRoleBastion
| InstanceGroupRoleMaster
| InstanceGroupRoleNode.

(** [api.InstanceGroup]: [ObjectMeta.Name] and [Spec.Role]. *)
Record InstanceGroup : Type := {
  Name : string;
  Role : InstanceGroupRole
}.

(** [api.Cluster]: [ObjectMeta.Name]. *)
Record Cluster : Type := { ClusterObjectName : string }.
End api.

Module v1.
(** [v1.Node], a node object reported by the cluster API. *)
Record Node : Type := { NodeName : string }.
End v1.

(** [*api.InstanceGroup]: the command only ever takes the addresses
    [&list.Items[i]] (line 244), so a pointer is the index [i] into
    [list.Items] and two pointers are the same group exactly when the
    indices are equal. *)
Abbreviation InstanceGroupPtr := nat (only parsing).

Module cloudinstances.
(** [cloudinstances.CloudInstanceGroupMember]: one cloud instance,
    with its node when it has joined the cluster. *)
Record CloudInstanceGroupMember : Type := {
  ID : string;
  Node : option v1.Node
}.

(** [cloudinstances.CloudInstanceGroup]. *)
Record CloudInstanceGroup : Type := {
  InstanceGroup : api.InstanceGroup;
  Status : string;
  Ready : list CloudInstanceGroupMember;
  NeedUpdate : list CloudInstanceGroupMember;
  MinSize : Z;
  MaxSize : Z
}.
End cloudinstances.

(** [map[string]*cloudinstances.CloudInstanceGroup], as the list of its
    entries in the order a [range] visits them.  Go leaves that order
    unspecified, so nothing below may depend on it: the statements quantify
    over every such list. *)
Definition CloudGroups : Type :=
  list (string * cloudinstances.CloudInstanceGroup).

(** Handles of the collaborators; the command passes them around and never
    looks inside. *)
Variant simple_Clientset : Type := clientset_handle (id : nat).
Variant rest_Config : Type := config_handle (id : nat).
Variant kubernetes_Interface : Type := k8s_handle (id : nat).
Variant fi_Cloud : Type := cloud_handle (id : nat).

(** [kutil.NewClientConfig(config, namespace)] (line 358). *)
Definition clientcmd_ClientConfig : Type := (rest_Config * string)%type.
Definition NewClientConfig (config : rest_Config) (namespace : string)
  : clientcmd_ClientConfig := (config, namespace).

(** ** Errors *)

(** The [error] values the command returns: the ones a collaborator hands
    back, which are passed on unchanged, and the ones built with
    [fmt.Errorf], one constructor per format string.  The last three are
    the executor's (see [instancegroups.RollingUpdate] below). *)
Inductive error : Type :=
| collaborator_error (msg : string)
    (* an error returned by a collaborator *)
| cannot_load_kubecfg_settings (contextName : string) (err : error)
    (* "cannot load kubecfg settings for %q: %v", line 214 *)
| cannot_build_kube_client (contextName : string) (err : error)
    (* "cannot build kube client for %q: %v", line 222 *)
| error_listing_nodes (err : error)
    (* "error listing nodes in cluster: %v", line 229 *)
| InstanceGroup_not_found (instanceGroupName : string)
    (* "InstanceGroup %q not found", line 261 *)
| DrainError (group instance : string) (err : error)
| TerminationError (group instance : string) (err : error)
| ValidationTimeoutError (group instance : string) (err : error).

(** ** Events *)

(** The steps of the executor's per-instance sequence that touch the
    outside world. *)
Inductive Step : Type :=
| Drain (timeout : Duration)
| Terminate
| Sleep (d : Duration)
| Validate (deadline : Duration).

Inductive Event : Type :=
| Call_Clientset
| Call_GetCluster (clusterName : string)
| Call_ClientConfig (contextName : string)
| Call_NewForConfig (config : rest_Config)
| Call_Nodes_List (k8sClient : kubernetes_Interface)
| Stderr (msg : string)
| Call_InstanceGroups_List (cluster : api.Cluster)
| Call_BuildCloud (cluster : api.Cluster)
| Call_GetCloudGroups (instanceGroups : list InstanceGroupPtr)
                      (warnUnmatched : bool) (nodes : list v1.Node)
| Call_Render (rows : list cloudinstances.CloudInstanceGroup)
              (columns : list string)
| Printf (msg : string)
| Glog (msg : string)
| Logged (err : error)
| Exec (role : api.InstanceGroupRole) (group instance : string) (step : Step).

(** ** The monad of the command: a trace and an error or a value *)

Definition Run (A : Type) : Type := (list Event * (error + A))%type.

Definition ret {A : Type} (a : A) : Run A := ([], inr a).

Definition fail {A : Type} (e : error) : Run A := ([], inl e).

Definition bind {A B : Type} (m : Run A) (k : A -> Run B) : Run B :=
  match m with
  | (t, inl e) => (t, inl e)
  | (t, inr a) => (t ++ fst (k a), snd (k a))
  end.

Definition emit (e : Event) : Run unit := ([e], inr tt).

(** A call of a collaborator: the call is logged, its answer is the
    oracle's. *)
Definition call {A : Type} (e : Event) (answer : error + A) : Run A :=
  ([e], answer).

(** [if err != nil { return fmt.Errorf(..., err) }] *)
Definition wrap {A : Type} (f : error -> error) (answer : error + A)
  : error + A :=
  match answer with
  | inl e => inl (f e)
  | inr a => inr a
  end.

(** A computation of the command itself, which logs nothing. *)
Definition silently {A : Type} (r : error + A) : Run A := ([], r).

(** A collaborator that only returns an [error]. *)
Definition of_err (r : option error) : error + unit :=
  match r with
  | Some e => inl e
  | None => inr tt
  end.

Declare Scope run_scope.
Delimit Scope run_scope with run.
Notation "x <- m ;; k" := (bind m (fun x => k))
  (at level 100, m at next level, right associativity) : run_scope.
Notation "m ;;; k" := (bind m (fun _ => k))
  (at level 100, right associativity) : run_scope.
Local Open Scope run_scope.

Definition trace {A : Type} (m : Run A) : list Event := fst m.
Definition result {A : Type} (m : Run A) : error + A := snd m.

(** [for _, x := range l { if err := f(x); err != nil { return err } }] *)
Fixpoint forM_ {A : Type} (l : list A) (f : A -> Run unit) : Run unit :=
  match l with
  | [] => ret tt
  | x :: l' => f x ;;; forM_ l' f
  end.

(** ** The collaborators *)

(** What the outside world answers to each call the command makes.  The
    first nine are the calls of [RunRollingUpdateCluster]; the last three
    are the collaborator interfaces the executor consumes. *)
Record World : Type := {
  (* f.Clientset(), line 199 *)
  Factory_Clientset : error + simple_Clientset;
  (* GetCluster(f, options.ClusterName), line 204 *)
  GetCluster : string -> error + api.Cluster;
  (* clientcmd...ClientConfig() with CurrentContext: contextName, line 210 *)
  ClientConfig : string -> error + rest_Config;
  (* kubernetes.NewForConfig(config), line 220 *)
  NewForConfig : rest_Config -> error + kubernetes_Interface;
  (* k8sClient.CoreV1().Nodes().List(...), line 225: a *v1.NodeList,
     which may be nil, with its Items *)
  Nodes_List : kubernetes_Interface -> error + option (list v1.Node);
  (* clientset.InstanceGroupsFor(cluster).List(...), line 237: list.Items *)
  InstanceGroups_List :
    simple_Clientset -> api.Cluster -> error + list api.InstanceGroup;
  (* cloudup.BuildCloud(cluster), line 273 *)
  BuildCloud : api.Cluster -> error + fi_Cloud;
  (* cloud.GetCloudGroups(cluster, instanceGroups, warnUnmatched, nodes),
     line 278; the pointers of instanceGroups point into list.Items *)
  GetCloudGroups :
    fi_Cloud -> api.Cluster -> list api.InstanceGroup ->
    list InstanceGroupPtr -> bool -> list v1.Node -> error + CloudGroups;
  (* t.Render(l, out, columns...), line 326 *)
  Table_Render :
    list cloudinstances.CloudInstanceGroup -> list string -> option error;
  (* featureflag.DrainAndValidateRollingUpdate.Enabled(), line 349 *)
  DrainAndValidateRollingUpdate_Enabled : bool;
  (* cordon the node of an instance and evict its pods *)
  DrainNode : string -> option error;
  (* TerminateInstance(instanceID) *)
  TerminateInstance : string -> option error;
  (* poll GetHealth() until healthy or the deadline, after the instance
     was replaced *)
  ValidateCluster : string -> option error
}.

(** ** The rolling-update executor, [instancegroups.RollingUpdateCluster] *)

Module instancegroups.

(** Modelled from the spec: the struct type
    [instancegroups.RollingUpdateCluster] is declared in package
    [pkg/instancegroups], not in this file.  Its fields are the eleven
    the composite literal of lines 352-364 names, and [BastionInterval],
    which the specification's UpdatePolicy lists next to [MasterInterval]
    and [NodeInterval] as the per-type intervals of the executor.
    [K8sClient] is an interface value, [nil] when no client was built. *)
Record RollingUpdateCluster : Type := {
  MasterInterval : Duration;
  NodeInterval : Duration;
  BastionInterval : Duration;
  Force : bool;
  Cloud : fi_Cloud;
  K8sClient : option kubernetes_Interface;
  ClientConfig : clientcmd_ClientConfig;
  FailOnDrainError : bool;
  FailOnValidate : bool;
  CloudOnly : bool;
  ClusterName : string;
  DrainInterval : Duration
}.

(** Modelled from the spec: the group-level interval of section 4.5,
    "[BastionInterval]/[MasterInterval]/[NodeInterval]", chosen by the
    type of the group. *)
Definition interval (d : RollingUpdateCluster) (role : api.InstanceGroupRole)
  : Duration :=
  match role with
  | api.InstanceGroupRoleBastion => BastionInterval d
  | api.InstanceGroupRoleMaster => MasterInterval d
  | api.InstanceGroupRoleNode => NodeInterval d
  end.

(** Modelled from the spec: the Drain Coordinator of section 4.3.
    Skipped entirely when [CloudOnly]; a drain error is fatal if
    [FailOnDrainError], and otherwise logged. *)
Definition drain (w : World) (d : RollingUpdateCluster)
    (role : api.InstanceGroupRole) (group : string)
    (m : cloudinstances.CloudInstanceGroupMember) : Run unit :=
  if CloudOnly d then ret tt
  else
    emit (Exec role group (cloudinstances.ID m) (Drain (DrainInterval d))) ;;;
    match DrainNode w (cloudinstances.ID m) with
    | None => ret tt
    | Some e =>
        if FailOnDrainError d
        then fail (DrainError group (cloudinstances.ID m) e)
        else emit (Logged (DrainError group (cloudinstances.ID m) e))
    end.

(** Modelled from the spec: the termination request of section 4.5; a
    [TerminationError] is always fatal (section 7). *)
Definition terminate (w : World)
    (role : api.InstanceGroupRole) (group : string)
    (m : cloudinstances.CloudInstanceGroupMember) : Run unit :=
  emit (Exec role group (cloudinstances.ID m) Terminate) ;;;
  match TerminateInstance w (cloudinstances.ID m) with
  | None => ret tt
  | Some e => fail (TerminationError group (cloudinstances.ID m) e)
  end.

(** Modelled from the spec: the Validation Poller of section 4.4, with
    the group's interval as its deadline.  Skipped entirely when
    [CloudOnly]; a timeout is fatal if [FailOnValidate], and otherwise
    logged. *)
Definition validate (w : World) (d : RollingUpdateCluster)
    (role : api.InstanceGroupRole) (group : string)
    (m : cloudinstances.CloudInstanceGroupMember) : Run unit :=
  if CloudOnly d then ret tt
  else
    emit (Exec role group (cloudinstances.ID m) (Validate (interval d role))) ;;;
    match ValidateCluster w (cloudinstances.ID m) with
    | None => ret tt
    | Some e =>
        if FailOnValidate d
        then fail (ValidationTimeoutError group (cloudinstances.ID m) e)
        else emit (Logged (ValidationTimeoutError group (cloudinstances.ID m) e))
    end.

(** Modelled from the spec: the per-instance sequence of section 4.5,
    "drain, request cloud termination of the instance, sleep the group
    interval, validate, advance to next instance". *)
Definition rollInstance (w : World) (d : RollingUpdateCluster)
    (role : api.InstanceGroupRole) (group : string)
    (m : cloudinstances.CloudInstanceGroupMember) : Run unit :=
  drain w d role group m ;;;
  terminate w role group m ;;;
  emit (Exec role group (cloudinstances.ID m) (Sleep (interval d role))) ;;;
  validate w d role group m.

(** Modelled from the spec: within a group, the instances in
    [NeedUpdate] are processed one at a time, in discovery order. *)
Definition rollGroup (w : World) (d : RollingUpdateCluster)
    (kv : string * cloudinstances.CloudInstanceGroup) : Run unit :=
  forM_ (cloudinstances.NeedUpdate (snd kv))
        (rollInstance w d
           (api.Role (cloudinstances.InstanceGroup (snd kv))) (fst kv)).

Definition hasRole (role : api.InstanceGroupRole)
    (kv : string * cloudinstances.CloudInstanceGroup) : bool :=
  match role, api.Role (cloudinstances.InstanceGroup (snd kv)) with
  | api.InstanceGroupRoleBastion, api.InstanceGroupRoleBastion => true
  | api.InstanceGroupRoleMaster, api.InstanceGroupRoleMaster => true
  | api.InstanceGroupRoleNode, api.InstanceGroupRoleNode => true
  | _, _ => false
  end.

(** Modelled from the spec: [RollingUpdate(groups, list)] is the method
    of [pkg/instancegroups] the command calls at line 365; only the call
    is in this file.  Section 4.5: the groups are taken in the fixed
    order bastions, then masters, then nodes; a fatal error stops the
    run, so no further group or instance is processed. *)
Definition RollingUpdate (w : World) (d : RollingUpdateCluster)
    (groups : CloudGroups) (list : list api.InstanceGroup) : Run unit :=
  forM_ (List.filter (hasRole api.InstanceGroupRoleBastion) groups
           ++ List.filter (hasRole api.InstanceGroupRoleMaster) groups
           ++ List.filter (hasRole api.InstanceGroupRoleNode) groups)
        (rollGroup w d).

End instancegroups.

(** ** RunRollingUpdateCluster (lines 197-366)

    The function is embedded block by block, in source order; each block
    is a definition so that a statement can say how far a run got. *)

Definition nl : string := String (Ascii.ascii_of_nat 10) EmptyString.

(** Lines 199-215: the clientset, the cluster and the kubecfg settings. *)
Record Session : Type := {
  clientset : simple_Clientset;
  cluster : api.Cluster;
  config : rest_Config
}.

Definition contextName (s : Session) : string :=
  api.ClusterObjectName (cluster s).

Definition loadConfig (w : World) (options : RollingUpdateOptions)
  : Run Session :=
  clientset <- call Call_Clientset (Factory_Clientset w) ;;
  cluster <- call (Call_GetCluster (ClusterName options))
               (GetCluster w (ClusterName options)) ;;
  config <- call (Call_ClientConfig (api.ClusterObjectName cluster))
              (wrap (cannot_load_kubecfg_settings (api.ClusterObjectName cluster))
                    (ClientConfig w (api.ClusterObjectName cluster))) ;;
  ret {| clientset := clientset; cluster := cluster; config := config |}.

(** Lines 217-235: [nodes] and [k8sClient] are declared with their zero
    values and assigned only when [!options.CloudOnly]. *)
Record ClusterNodes : Type := {
  k8sClient : option kubernetes_Interface;
  nodes : list v1.Node
}.

Definition listNodes (w : World) (options : RollingUpdateOptions)
    (s : Session) : Run ClusterNodes :=
  if CloudOnly options then ret {| k8sClient := None; nodes := [] |}
  else
    k8sClient <- call (Call_NewForConfig (config s))
                   (wrap (cannot_build_kube_client (contextName s))
                         (NewForConfig w (config s))) ;;
    emit (Call_Nodes_List k8sClient) ;;;
    match Nodes_List w k8sClient with
    | inl err =>
        emit (Stderr ("Unable to reach the kubernetes API." +:+ nl)) ;;;
        emit (Stderr ("Use --cloudonly to do a rolling-update without confirming progress with the k8s API"
                        +:+ nl +:+ nl)) ;;;
        fail (error_listing_nodes err)
    | inr nodeList =>
        ret {| k8sClient := Some k8sClient;
               nodes := match nodeList with
                        | Some items => items
                        | None => []
                        end |}
    end.

(** Lines 237-245: the declared instance groups [list.Items], and the
    slice of the addresses of its elements. *)
Definition listInstanceGroups (w : World) (s : Session)
  : Run (list api.InstanceGroup) :=
  call (Call_InstanceGroups_List (cluster s))
       (InstanceGroups_List w (clientset s) (cluster s)).

Definition addresses (items : list api.InstanceGroup)
  : list InstanceGroupPtr :=
  seq 0 (length items).

(** Lines 253-259: the first group of [instanceGroups] bearing the name,
    [None] for [found == nil]. *)
Fixpoint findInstanceGroup (items : list api.InstanceGroup)
    (instanceGroups : list InstanceGroupPtr) (instanceGroupName : string)
  : option InstanceGroupPtr :=
  match instanceGroups with
  | [] => None
  | ig :: rest =>
      if decide (api.Name <$> items !! ig = Some instanceGroupName)
      then Some ig
      else findInstanceGroup items rest instanceGroupName
  end.

(** Lines 252-265: the loop over the requested names, with [filtered] as
    its accumulator. *)
Fixpoint filterLoop (items : list api.InstanceGroup)
    (instanceGroups : list InstanceGroupPtr) (names : list string)
    (filtered : list InstanceGroupPtr) : error + list InstanceGroupPtr :=
  match names with
  | [] => inr filtered
  | instanceGroupName :: rest =>
      match findInstanceGroup items instanceGroups instanceGroupName with
      | None => inl (InstanceGroup_not_found instanceGroupName)
      | Some found =>
          filterLoop items instanceGroups rest (filtered ++ [found])
      end
  end.

(** Lines 242-271: the targeted groups and [warnUnmatched]. *)
Record Targets : Type := {
  instanceGroups : list InstanceGroupPtr;
  warnUnmatched : bool
}.

Definition filterInstanceGroups (options : RollingUpdateOptions)
    (items : list api.InstanceGroup) : Run Targets :=
  if decide (length (InstanceGroups options) ≠ 0)
  then
    filtered <- silently (filterLoop items (addresses items)
                            (InstanceGroups options) []) ;;
    ret {| instanceGroups := filtered; warnUnmatched := false |}
  else
    ret {| instanceGroups := addresses items; warnUnmatched := true |}.

(** Lines 273-281: the cloud and its groups. *)
Record CloudView : Type := {
  cloud : fi_Cloud;
  groups : CloudGroups
}.

Definition getCloudGroups (w : World) (s : Session)
    (items : list api.InstanceGroup) (t : Targets) (n : ClusterNodes)
  : Run CloudView :=
  cloud <- call (Call_BuildCloud (cluster s)) (BuildCloud w (cluster s)) ;;
  groups <- call (Call_GetCloudGroups (instanceGroups t) (warnUnmatched t)
                                      (nodes n))
              (GetCloudGroups w cloud (cluster s) items (instanceGroups t)
                              (warnUnmatched t) (nodes n)) ;;
  ret {| cloud := cloud; groups := groups |}.

(** Lines 283-330: the table.  The column closures are run by [Render],
    which belongs to the presentation layer; the command chooses the rows
    and the columns. *)
Definition columns (options : RollingUpdateOptions) : list string :=
  ["NAME"; "STATUS"; "NEEDUPDATE"; "READY"; "MIN"; "MAX"]
    ++ (if CloudOnly options then [] else ["NODES"]).

Definition renderTable (w : World) (options : RollingUpdateOptions)
    (v : CloudView) : Run unit :=
  call (Call_Render (map snd (groups v)) (columns options))
       (of_err (Table_Render w (map snd (groups v)) (columns options))).

(** Everything the run holds once the table is printed. *)
Record Snapshot : Type := {
  session : Session;
  clusterNodes : ClusterNodes;
  list_Items : list api.InstanceGroup;
  targets : Targets;
  cloudView : CloudView
}.

(** Lines 199-330. *)
Definition discovery (w : World) (options : RollingUpdateOptions)
  : Run Snapshot :=
  s <- loadConfig w options ;;
  n <- listNodes w options s ;;
  items <- listInstanceGroups w s ;;
  t <- filterInstanceGroups options items ;;
  v <- getCloudGroups w s items t n ;;
  renderTable w options v ;;;
  ret {| session := s; clusterNodes := n; list_Items := items;
         targets := t; cloudView := v |}.

(** Lines 332-337. *)
Fixpoint needUpdateLoop (groups : CloudGroups) (needUpdate : bool) : bool :=
  match groups with
  | [] => needUpdate
  | (_, group) :: rest =>
      needUpdateLoop rest
        (if decide (length (cloudinstances.NeedUpdate group) ≠ 0)
         then true else needUpdate)
  end.

(** Lines 352-364: the composite literal.  A field the literal does not
    name keeps its zero value. *)
Definition newRollingUpdateCluster (options : RollingUpdateOptions)
    (s : Snapshot) : instancegroups.RollingUpdateCluster :=
  {| instancegroups.MasterInterval := MasterInterval options;
     instancegroups.NodeInterval := NodeInterval options;
     instancegroups.BastionInterval := 0%Z;
     instancegroups.Force := Force options;
     instancegroups.Cloud := cloud (cloudView s);
     instancegroups.K8sClient := k8sClient (clusterNodes s);
     instancegroups.ClientConfig :=
       NewClientConfig (config (session s)) "kube-system";
     instancegroups.FailOnDrainError := FailOnDrainError options;
     instancegroups.FailOnValidate := FailOnValidate options;
     instancegroups.CloudOnly := CloudOnly options;
     instancegroups.ClusterName := ClusterName options;
     instancegroups.DrainInterval := DrainInterval options |}.

(** Lines 332-365: the two gates, then the executor. *)
Definition rollingUpdate (w : World) (options : RollingUpdateOptions)
    (s : Snapshot) : Run unit :=
  let needUpdate := needUpdateLoop (groups (cloudView s)) false in
  if negb needUpdate && negb (Force options)
  then emit (Printf (nl +:+ "No rolling-update required." +:+ nl))
  else if negb (Yes options)
  then emit (Printf (nl +:+ "Must specify --yes to rolling-update." +:+ nl))
  else
    (if DrainAndValidateRollingUpdate_Enabled w
     then emit (Glog "Rolling update with drain and validate enabled.")
     else ret tt) ;;;
    instancegroups.RollingUpdate w (newRollingUpdateCluster options s)
      (groups (cloudView s)) (list_Items s).

Definition RunRollingUpdateCluster (w : World) (options : RollingUpdateOptions)
  : Run unit :=
  s <- discovery w options ;;
  rollingUpdate w options s.

(** ** What a trace shows *)

Definition count (p : Event -> bool) (t : list Event) : nat :=
  length (List.filter p t).

Definition is_termination (e : Event) : bool :=
  match e with
  | Exec _ _ _ Terminate => true
  | _ => false
  end.

Definition is_drain (e : Event) : bool :=
  match e with
  | Exec _ _ _ (Drain _) => true
  | _ => false
  end.

(** A step of the executor on an instance. *)
Definition touches_instance (e : Event) : bool :=
  match e with
  | Exec _ _ _ _ => true
  | _ => false
  end.

(** A query to the cloud provider. *)
Definition queries_cloud (e : Event) : bool :=
  match e with
  | Call_BuildCloud _ | Call_GetCloudGroups _ _ _ => true
  | _ => false
  end.

(** A use of the cluster API: building its client, listing the nodes. *)
Definition uses_cluster_api (e : Event) : bool :=
  match e with
  | Call_NewForConfig _ | Call_Nodes_List _ => true
  | _ => false
  end.

(** A query for the declared instance groups. *)
Definition lists_instance_groups (e : Event) : bool :=
  match e with
  | Call_InstanceGroups_List _ => true
  | _ => false
  end.

Definition terminations (t : list Event) : nat := count is_termination t.
Definition drains (t : list Event) : nat := count is_drain t.

(** The order of the group types. *)
Definition rank (role : api.InstanceGroupRole) : nat :=
  match role with
  | api.InstanceGroupRoleBastion => 0
  | api.InstanceGroupRoleMaster => 1
  | api.InstanceGroupRoleNode => 2
  end.

(** An instance has completed within a trace when its whole sequence is
    in it and ended without a fatal error. *)
Definition completed (w : World) (d : instancegroups.RollingUpdateCluster)
    (kv : string * cloudinstances.CloudInstanceGroup)
    (m : cloudinstances.CloudInstanceGroupMember) (t : list Event) : Prop :=
  let r := instancegroups.rollInstance w d
             (api.Role (cloudinstances.InstanceGroup (snd kv))) (fst kv) m in
  result r = inr tt /\ exists ta tb, t = ta ++ trace r ++ tb.

(** ** Sample clusters, for the examples and the witnesses *)

Definition member (id : string) : cloudinstances.CloudInstanceGroupMember :=
  {| cloudinstances.ID := id; cloudinstances.Node := None |}.

Definition group (name : string) (role : api.InstanceGroupRole)
    (stale ready : list string) : string * cloudinstances.CloudInstanceGroup :=
  (name,
   {| cloudinstances.InstanceGroup := {| api.Name := name; api.Role := role |};
      cloudinstances.Status :=
        match stale with [] => "Ready" | _ => "NeedsUpdate" end;
      cloudinstances.Ready := map member ready;
      cloudinstances.NeedUpdate := map member stale;
      cloudinstances.MinSize := 1%Z;
      cloudinstances.MaxSize := 3%Z |}).

Definition declared : list api.InstanceGroup :=
  [ {| api.Name := "nodes"; api.Role := api.InstanceGroupRoleNode |};
    {| api.Name := "masters"; api.Role := api.InstanceGroupRoleMaster |};
    {| api.Name := "bastions"; api.Role := api.InstanceGroupRoleBastion |} ].

(** A world in which every call succeeds and the cloud reports [gs]. *)
Definition healthy (gs : CloudGroups) : World :=
  {| Factory_Clientset := inr (clientset_handle 1);
     GetCluster := fun name => inr {| api.ClusterObjectName := name |};
     ClientConfig := fun _ => inr (config_handle 2);
     NewForConfig := fun _ => inr (k8s_handle 3);
     Nodes_List := fun _ => inr (Some [ {| v1.NodeName := "ip-10-0-0-1" |} ]);
     InstanceGroups_List := fun _ _ => inr declared;
     BuildCloud := fun _ => inr (cloud_handle 4);
     GetCloudGroups := fun _ _ _ _ _ _ => inr gs;
     Table_Render := fun _ _ => None;
     DrainAndValidateRollingUpdate_Enabled := false;
     DrainNode := fun _ => None;
     TerminateInstance := fun _ => None;
     ValidateCluster := fun _ => None |}.

(** The same world with the cluster API down. *)
Definition unreachable (gs : CloudGroups) : World :=
  {| Factory_Clientset := Factory_Clientset (healthy gs);
     GetCluster := GetCluster (healthy gs);
     ClientConfig := ClientConfig (healthy gs);
     NewForConfig := NewForConfig (healthy gs);
     Nodes_List := fun _ => inl (collaborator_error "connection refused");
     InstanceGroups_List := InstanceGroups_List (healthy gs);
     BuildCloud := BuildCloud (healthy gs);
     GetCloudGroups := GetCloudGroups (healthy gs);
     Table_Render := Table_Render (healthy gs);
     DrainAndValidateRollingUpdate_Enabled := false;
     DrainNode := DrainNode (healthy gs);
     TerminateInstance := TerminateInstance (healthy gs);
     ValidateCluster := ValidateCluster (healthy gs) |}.

Definition stale_cluster : CloudGroups :=
  [ group "nodes" api.InstanceGroupRoleNode ["n1"; "n2"] ["n3"];
    group "masters" api.InstanceGroupRoleMaster ["m1"; "m2"; "m3"] [];
    group "bastions" api.InstanceGroupRoleBastion ["b1"] [] ].

Definition fresh_cluster : CloudGroups :=
  [ group "masters" api.InstanceGroupRoleMaster [] ["m1"];
    group "nodes" api.InstanceGroupRoleNode [] ["n1"; "n2"] ].

(** [kops rolling-update cluster --name k8s.example.com], with the flags
    the examples set. *)
Definition defaults : RollingUpdateOptions :=
  let o := InitDefaults RollingUpdateOptions_zero in
  {| Yes := Yes o; Force := Force o; CloudOnly := CloudOnly o;
     FailOnDrainError := FailOnDrainError o;
     FailOnValidate := FailOnValidate o;
     DrainInterval := DrainInterval o; MasterInterval := MasterInterval o;
     NodeInterval := NodeInterval o; BastionInterval := BastionInterval o;
     ClusterName := "k8s.example.com"; InstanceGroups := InstanceGroups o |}.

Definition with_flags (yes force cloudonly : bool) (names : list string)
    (o : RollingUpdateOptions) : RollingUpdateOptions :=
  {| Yes := yes; Force := force; CloudOnly := cloudonly;
     FailOnDrainError := FailOnDrainError o;
     FailOnValidate := FailOnValidate o;
     DrainInterval := DrainInterval o; MasterInterval := MasterInterval o;
     NodeInterval := NodeInterval o; BastionInterval := BastionInterval o;
     ClusterName := ClusterName o; InstanceGroups := names |}.

(** The first declared group bearing a name, as an index into
    [list.Items]: what lines 253-259 are meant to find. *)
Definition firstNamed (items : list api.InstanceGroup) (name : string)
  : option InstanceGroupPtr :=
  fst <$> list_find (fun ig => api.Name ig = name) items.

(** A requested name that no declared group bears. *)
Definition unmatched (items : list api.InstanceGroup) (name : string) : Prop :=
  Forall (fun ig => api.Name ig <> name) items.

(** The events of lines 199-215 and of lines 217-235. *)
Definition loadConfig_event (e : Event) : Prop :=
  match e with
  | Call_Clientset | Call_GetCluster _ | Call_ClientConfig _ => True
  | _ => False
  end.

Definition listNodes_event (e : Event) : Prop :=
  match e with
  | Call_NewForConfig _ | Call_Nodes_List _ | Stderr _ => True
  | _ => False
  end.

(** The events the executor produces for a group of a given type. *)
Definition group_event (role : api.InstanceGroupRole) (e : Event) : Prop :=
  match e with
  | Exec r _ _ _ => r = role
  | Logged _ => True
  | _ => False
  end.

Definition executor_event (e : Event) : Prop :=
  match e with
  | Exec _ _ _ _ | Logged _ => True
  | _ => False
  end.

(** ** The columns of the table (lines 284-316) *)

(** [strconv.Itoa]: the decimal numeral of an [int], with a minus sign for
    a negative one. *)
Definition strconv_Itoa (i : Z) : string := pretty i.

(** [len(s)], an [int]. *)
Definition len {A : Type} (s : list A) : Z := Z.of_nat (length s).

(** Lines 305-309 and 310-314: one loop of the NODES closure, appending
    to [nodes] the node of every member that has one. *)
Fixpoint appendNodes (members : list cloudinstances.CloudInstanceGroupMember)
    (nodes : list v1.Node) : list v1.Node :=
  match members with
  | [] => nodes
  | i :: rest =>
      appendNodes rest
        (match cloudinstances.Node i with
         | Some node => nodes ++ [node]
         | None => nodes
         end)
  end.

Definition column_NAME (r : cloudinstances.CloudInstanceGroup) : string :=
  api.Name (cloudinstances.InstanceGroup r).

Definition column_STATUS (r : cloudinstances.CloudInstanceGroup) : string :=
  cloudinstances.Status r.

Definition column_NEEDUPDATE (r : cloudinstances.CloudInstanceGroup) : string :=
  strconv_Itoa (len (cloudinstances.NeedUpdate r)).

Definition column_READY (r : cloudinstances.CloudInstanceGroup) : string :=
  strconv_Itoa (len (cloudinstances.Ready r)).

Definition column_MIN (r : cloudinstances.CloudInstanceGroup) : string :=
  strconv_Itoa (cloudinstances.MinSize r).

Definition column_MAX (r : cloudinstances.CloudInstanceGroup) : string :=
  strconv_Itoa (cloudinstances.MaxSize r).

Definition column_NODES (r : cloudinstances.CloudInstanceGroup) : string :=
  strconv_Itoa
    (len (appendNodes (cloudinstances.NeedUpdate r)
            (appendNodes (cloudinstances.Ready r) []))).

(** The table [t] after the seven calls of [AddColumn]. *)
Definition tableColumns
  : list (string * (cloudinstances.CloudInstanceGroup -> string)) :=
  [ ("NAME", column_NAME); ("STATUS", column_STATUS);
    ("NEEDUPDATE", column_NEEDUPDATE); ("READY", column_READY);
    ("MIN", column_MIN); ("MAX", column_MAX); ("NODES", column_NODES) ].

(** ** More of what a trace shows *)

Definition is_printf (e : Event) : bool :=
  match e with
  | Printf _ => true
  | _ => false
  end.

(** The calls of lines 199-330, numbered in the order of the source. *)
Definition callNumber (e : Event) : option nat :=
  match e with
  | Call_Clientset => Some 0
  | Call_GetCluster _ => Some 1
  | Call_ClientConfig _ => Some 2
  | Call_NewForConfig _ => Some 3
  | Call_Nodes_List _ => Some 4
  | Call_InstanceGroups_List _ => Some 5
  | Call_BuildCloud _ => Some 6
  | Call_GetCloudGroups _ _ _ => Some 7
  | Call_Render _ _ => Some 8
  | _ => None
  end.

Definition noUpdateRequired : string :=
  nl +:+ "No rolling-update required." +:+ nl.

Definition mustSpecifyYes : string :=
  nl +:+ "Must specify --yes to rolling-update." +:+ nl.

Definition withBastionInterval (d : Duration) (o : RollingUpdateOptions)
  : RollingUpdateOptions :=
  {| Yes := Yes o; Force := Force o; CloudOnly := CloudOnly o;
     FailOnDrainError := FailOnDrainError o;
     FailOnValidate := FailOnValidate o;
     DrainInterval := DrainInterval o; MasterInterval := MasterInterval o;
     NodeInterval := NodeInterval o; BastionInterval := d;
     ClusterName := ClusterName o; InstanceGroups := InstanceGroups o |}.

(** ** NewCmdRollingUpdateCluster (lines 145-195) *)

(** The addresses [&options.X] the flags are registered with, by type. *)
Inductive BoolField : Type :=
| F_Yes | F_Force | F_CloudOnly | F_FailOnDrainError | F_FailOnValidate.

Inductive DurationField : Type :=
| F_DrainInterval | F_MasterInterval | F_NodeInterval | F_BastionInterval.

Inductive Pointer : Type :=
| BoolPtr (f : BoolField)
| DurationPtr (f : DurationField)
| InstanceGroupsPtr.

Inductive FlagValue : Type :=
| BoolValue (b : bool)
| DurationValue (d : Duration)
| StringSliceValue (l : list string).

(** [*p = b], [*p = d] and [*p = l]. *)
Definition storeBool (p : BoolField) (b : bool) (o : RollingUpdateOptions)
  : RollingUpdateOptions :=
  {| Yes := match p with F_Yes => b | _ => Yes o end;
     Force := match p with F_Force => b | _ => Force o end;
     CloudOnly := match p with F_CloudOnly => b | _ => CloudOnly o end;
     FailOnDrainError :=
       match p with F_FailOnDrainError => b | _ => FailOnDrainError o end;
     FailOnValidate :=
       match p with F_FailOnValidate => b | _ => FailOnValidate o end;
     DrainInterval := DrainInterval o; MasterInterval := MasterInterval o;
     NodeInterval := NodeInterval o; BastionInterval := BastionInterval o;
     ClusterName := ClusterName o; InstanceGroups := InstanceGroups o |}.

Definition storeDuration (p : DurationField) (d : Duration)
    (o : RollingUpdateOptions) : RollingUpdateOptions :=
  {| Yes := Yes o; Force := Force o; CloudOnly := CloudOnly o;
     FailOnDrainError := FailOnDrainError o;
     FailOnValidate := FailOnValidate o;
     DrainInterval :=
       match p with F_DrainInterval => d | _ => DrainInterval o end;
     MasterInterval :=
       match p with F_MasterInterval => d | _ => MasterInterval o end;
     NodeInterval :=
       match p with F_NodeInterval => d | _ => NodeInterval o end;
     BastionInterval :=
       match p with F_BastionInterval => d | _ => BastionInterval o end;
     ClusterName := ClusterName o; InstanceGroups := InstanceGroups o |}.

Definition storeInstanceGroups (l : list string) (o : RollingUpdateOptions)
  : RollingUpdateOptions :=
  {| Yes := Yes o; Force := Force o; CloudOnly := CloudOnly o;
     FailOnDrainError := FailOnDrainError o;
     FailOnValidate := FailOnValidate o;
     DrainInterval := DrainInterval o; MasterInterval := MasterInterval o;
     NodeInterval := NodeInterval o; BastionInterval := BastionInterval o;
     ClusterName := ClusterName o; InstanceGroups := l |}.

(** [options.ClusterName = clusterName] (line 184). *)
Definition storeClusterName (clusterName : string) (o : RollingUpdateOptions)
  : RollingUpdateOptions :=
  {| Yes := Yes o; Force := Force o; CloudOnly := CloudOnly o;
     FailOnDrainError := FailOnDrainError o;
     FailOnValidate := FailOnValidate o;
     DrainInterval := DrainInterval o; MasterInterval := MasterInterval o;
     NodeInterval := NodeInterval o; BastionInterval := BastionInterval o;
     ClusterName := clusterName; InstanceGroups := InstanceGroups o |}.

(** The command under construction: the flags registered so far, each
    with the address it writes to, and the variable [options] the closures
    share. *)
Record Command : Type := {
  flags : list (string * Pointer);
  options : RollingUpdateOptions
}.

(** [cmd.Flags().BoolVar(p, name, value, usage)] and its siblings: the
    flag library stores the default through the pointer when the flag is
    registered, and keeps the pointer under the name of the flag. *)
Definition BoolVar (p : BoolField) (name : string) (value : bool)
    (cmd : Command) : Command :=
  {| flags := flags cmd ++ [(name, BoolPtr p)];
     options := storeBool p value (options cmd) |}.

Definition DurationVar (p : DurationField) (name : string) (value : Duration)
    (cmd : Command) : Command :=
  {| flags := flags cmd ++ [(name, DurationPtr p)];
     options := storeDuration p value (options cmd) |}.

Definition StringSliceVar (name : string) (value : list string)
    (cmd : Command) : Command :=
  {| flags := flags cmd ++ [(name, InstanceGroupsPtr)];
     options := storeInstanceGroups value (options cmd) |}.

(** Lines 147-169, for a value of
    [featureflag.DrainAndValidateRollingUpdate.Enabled()]. *)
Definition NewCmdRollingUpdateCluster (enabled : bool) : Command :=
  let cmd0 := {| flags := [];
                 options := InitDefaults RollingUpdateOptions_zero |} in
  let cmd1 := BoolVar F_Yes "yes" (Yes (options cmd0)) cmd0 in
  let cmd2 := BoolVar F_Force "force" (Force (options cmd1)) cmd1 in
  let cmd3 := BoolVar F_CloudOnly "cloudonly" (CloudOnly (options cmd2)) cmd2 in
  let cmd4 := DurationVar F_MasterInterval "master-interval"
                (MasterInterval (options cmd3)) cmd3 in
  let cmd5 := DurationVar F_NodeInterval "node-interval"
                (NodeInterval (options cmd4)) cmd4 in
  let cmd6 := DurationVar F_BastionInterval "bastion-interval"
                (BastionInterval (options cmd5)) cmd5 in
  let cmd7 := StringSliceVar "instance-group"
                (InstanceGroups (options cmd6)) cmd6 in
  if enabled
  then BoolVar F_FailOnValidate "fail-on-validate-error" true
         (BoolVar F_FailOnDrainError "fail-on-drain-error" true cmd7)
  else cmd7.

(** What the flag library does with one flag of the command line: the
    value is stored through the pointer registered under the name.  An
    unknown name, or a value of another type than the flag's, is an error
    of the library, [None] here. *)
Definition setFlag (cmd : Command) (name : string) (v : FlagValue)
  : option Command :=
  match snd <$> list_find (fun kv => fst kv = name) (flags cmd) with
  | None => None
  | Some (_, p) =>
      match p, v with
      | BoolPtr f, BoolValue b =>
          Some {| flags := flags cmd; options := storeBool f b (options cmd) |}
      | DurationPtr f, DurationValue d =>
          Some {| flags := flags cmd;
                  options := storeDuration f d (options cmd) |}
      | InstanceGroupsPtr, StringSliceValue l =>
          Some {| flags := flags cmd;
                  options := storeInstanceGroups l (options cmd) |}
      | _, _ => None
      end
  end.

Fixpoint setFlags (cmd : Command) (given : list (string * FlagValue))
  : option Command :=
  match given with
  | [] => Some cmd
  | (name, v) :: rest =>
      match setFlag cmd name v with
      | None => None
      | Some cmd' => setFlags cmd' rest
      end
  end.

(** [rootCommand]: what [ProcessArgs(args)] returns, and what
    [ClusterName()] returns after it. *)
Record RootCommand : Type := {
  ProcessArgs : list string -> option error;
  RootClusterName : list string -> string
}.

(** The errors [exitWithError] is called with: the one built at line 180,
    and the ones returned by [ProcessArgs] and by
    [RunRollingUpdateCluster]. *)
Inductive exitError : Type :=
| name_is_required                (* "--name is required" *)
| returned (err : error).

Inductive CmdEvent : Type :=
| Call_ProcessArgs (args : list string)
| Call_ClusterName
| Ran (e : Event)
| exitWithError (err : exitError).

(** [cmd.Run] (lines 171-192), on the [options] the flags have left. *)
Definition cmd_Run (w : World) (rootCommand : RootCommand)
    (options : RollingUpdateOptions) (args : list string) : list CmdEvent :=
  Call_ProcessArgs args ::
  match ProcessArgs rootCommand args with
  | Some err => [exitWithError (returned err)]
  | None =>
      Call_ClusterName ::
      let clusterName := RootClusterName rootCommand args in
      if decide (clusterName = "")
      then [exitWithError name_is_required]
      else
        let r := RunRollingUpdateCluster w
                   (storeClusterName clusterName options) in
        map Ran (trace r)
          ++ match result r with
             | inl err => [exitWithError (returned err)]
             | inr _ => []
             end
  end.

(** A cloud whose table cannot be printed. *)
Definition unprintable (gs : CloudGroups) : World :=
  {| Factory_Clientset := Factory_Clientset (healthy gs);
     GetCluster := GetCluster (healthy gs);
     ClientConfig := ClientConfig (healthy gs);
     NewForConfig := NewForConfig (healthy gs);
     Nodes_List := Nodes_List (healthy gs);
     InstanceGroups_List := InstanceGroups_List (healthy gs);
     BuildCloud := BuildCloud (healthy gs);
     GetCloudGroups := GetCloudGroups (healthy gs);
     Table_Render := fun _ _ => Some (collaborator_error "broken pipe");
     DrainAndValidateRollingUpdate_Enabled := false;
     DrainNode := DrainNode (healthy gs);
     TerminateInstance := TerminateInstance (healthy gs);
     ValidateCluster := ValidateCluster (healthy gs) |}.

Definition sample_root (name : string) : RootCommand :=
  {| ProcessArgs := fun _ => None; RootClusterName := fun _ => name |}.

(** * Properties *)

(** ** The monad *)

Lemma trace_bind {A B : Type} (m : Run A) (k : A -> Run B) :
  trace (bind m k)
  = trace m ++ match result m with
               | inr a => trace (k a)
               | inl _ => []
               end.
Proof.
  destruct m as [t [e | a]]; simpl.
  - now rewrite app_nil_r.
  - reflexivity.
Qed.

Lemma result_bind {A B : Type} (m : Run A) (k : A -> Run B) :
  result (bind m k)
  = match result m with
    | inr a => result (k a)
    | inl e => inl e
    end.
Proof. destruct m as [t [e | a]]; reflexivity. Qed.

Lemma bind_ok {A B : Type} (m : Run A) (k : A -> Run B) t a :
  m = (t, inr a) -> bind m k = (t ++ trace (k a), result (k a)).
Proof. intros ->. reflexivity. Qed.

(** A property of all events of [m] and of all events of what follows is a
    property of all events of the whole. *)
Lemma Forall_trace_bind {A B : Type} (P : Event -> Prop)
    (m : Run A) (k : A -> Run B) :
  Forall P (trace m) ->
  (forall a, result m = inr a -> Forall P (trace (k a))) ->
  Forall P (trace (bind m k)).
Proof.
  intros Hm Hk. rewrite trace_bind. apply Forall_app. split; [exact Hm |].
  destruct (result m) as [e | a]; [constructor | now apply Hk].
Qed.

Lemma Forall_trace_forM_ {A : Type} (P : Event -> Prop)
    (l : list A) (f : A -> Run unit) :
  (forall x, x ∈ l -> Forall P (trace (f x))) ->
  Forall P (trace (forM_ l f)).
Proof.
  induction l as [| x l IH]; intros H; simpl.
  - constructor.
  - apply Forall_trace_bind.
    + apply H. left.
    + intros _ _. apply IH. intros y Hy. apply H. now right.
Qed.

Lemma count_zero (p : Event -> bool) (t : list Event) :
  Forall (fun e => p e = false) t -> count p t = 0.
Proof.
  unfold count. induction 1 as [| e t He _ IH]; simpl; [reflexivity |].
  now rewrite He.
Qed.

Lemma count_app (p : Event -> bool) (t1 t2 : list Event) :
  count p (t1 ++ t2) = count p t1 + count p t2.
Proof. unfold count. now rewrite List.filter_app, length_app. Qed.

(** ** The events of each block *)

Ltac break_match :=
  match goal with
  | |- context [match ?x with _ => _ end] => destruct x eqn:?
  | |- context [if ?x then _ else _] => destruct x eqn:?
  end.

Ltac events :=
  repeat first [ apply Forall_trace_bind; [| intros ? _] | break_match ];
  try (cbv [call emit ret fail trace fst];
       repeat (apply Forall_cons; split); try apply Forall_nil;
       simpl; auto).

Lemma loadConfig_events w o : Forall loadConfig_event (trace (loadConfig w o)).
Proof. unfold loadConfig. events. Qed.

Lemma listNodes_events w o s : Forall listNodes_event (trace (listNodes w o s)).
Proof. unfold listNodes. events. Qed.

Lemma listNodes_CloudOnly w o s :
  CloudOnly o = true ->
  listNodes w o s = ([], inr {| k8sClient := None; nodes := [] |}).
Proof. intros H. unfold listNodes. now rewrite H. Qed.

Lemma listInstanceGroups_events w s :
  Forall (fun e => lists_instance_groups e = true)
         (trace (listInstanceGroups w s)).
Proof. unfold listInstanceGroups. events. Qed.

Lemma filterInstanceGroups_silent o items :
  trace (filterInstanceGroups o items) = [].
Proof.
  unfold filterInstanceGroups. destruct (decide _); [| reflexivity].
  now destruct (filterLoop _ _ _ _).
Qed.

Lemma getCloudGroups_events w s items t n :
  Forall (fun e => e = Call_BuildCloud (cluster s)
                   \/ e = Call_GetCloudGroups (instanceGroups t)
                            (warnUnmatched t) (nodes n))
         (trace (getCloudGroups w s items t n)).
Proof. unfold getCloudGroups. events; auto. Qed.

Lemma renderTable_events w o v :
  trace (renderTable w o v) = [Call_Render (map snd (groups v)) (columns o)].
Proof. reflexivity. Qed.

(** Nothing in lines 199-330 touches an instance. *)
Lemma discovery_events w o :
  Forall (fun e => touches_instance e = false) (trace (discovery w o)).
Proof.
  unfold discovery.
  apply Forall_trace_bind; [| intros s _].
  { eapply Forall_impl; [apply loadConfig_events |]. now intros []. }
  apply Forall_trace_bind; [| intros n _].
  { eapply Forall_impl; [apply listNodes_events |]. now intros []. }
  apply Forall_trace_bind; [| intros items _].
  { eapply Forall_impl; [apply listInstanceGroups_events |]. now intros []. }
  apply Forall_trace_bind; [| intros t _].
  { rewrite filterInstanceGroups_silent. constructor. }
  apply Forall_trace_bind; [| intros v _].
  { eapply Forall_impl; [apply getCloudGroups_events |].
    now intros e [-> | ->]. }
  apply Forall_trace_bind; [| intros _ _].
  { rewrite renderTable_events. now repeat constructor. }
  constructor.
Qed.

Lemma no_mutation_of_untouched (t : list Event) :
  Forall (fun e => touches_instance e = false) t ->
  terminations t = 0 /\ drains t = 0.
Proof.
  intros H. split; apply count_zero; eapply Forall_impl; try exact H.
  - now intros [].
  - now intros [].
Qed.

(** ** The loop of lines 332-337 *)

Lemma needUpdateLoop_true gs : needUpdateLoop gs true = true.
Proof.
  induction gs as [| [k g] gs IH]; simpl; [reflexivity |].
  now destruct (decide _).
Qed.

Lemma needUpdateLoop_false gs :
  needUpdateLoop gs false = false
  <-> Forall (fun kv => cloudinstances.NeedUpdate (snd kv) = []) gs.
Proof.
  induction gs as [| [k g] gs IH]; simpl.
  - split; [constructor | reflexivity].
  - destruct (decide _) as [Hne | Hz].
    + rewrite needUpdateLoop_true. split; [discriminate |].
      intros H. apply Forall_cons in H as [Hg _]. simpl in Hg.
      rewrite Hg in Hne. now contradiction Hne.
    + rewrite IH. split.
      * intros H. constructor; [| exact H]. simpl.
        destruct (cloudinstances.NeedUpdate g); [reflexivity |].
        contradiction Hz. discriminate.
      * intros H. now apply Forall_cons in H as [_ H].
Qed.

Lemma needUpdateLoop_stale gs :
  Exists (fun kv => cloudinstances.NeedUpdate (snd kv) <> []) gs ->
  needUpdateLoop gs false = true.
Proof.
  intros H. destruct (needUpdateLoop gs false) eqn:E; [reflexivity |].
  apply needUpdateLoop_false in E. apply Exists_exists in H as (kv & Hin & Hne).
  rewrite Forall_forall in E. now specialize (E kv Hin).
Qed.

(** The order in which [range] visits the map does not matter. *)
Lemma needUpdateLoop_Permutation gs gs' :
  gs ≡ₚ gs' -> needUpdateLoop gs false = needUpdateLoop gs' false.
Proof.
  intros Hp.
  destruct (needUpdateLoop gs false) eqn:E, (needUpdateLoop gs' false) eqn:E';
    try reflexivity.
  - apply needUpdateLoop_false in E'. rewrite <- Hp in E'.
    apply needUpdateLoop_false in E'. congruence.
  - apply needUpdateLoop_false in E. rewrite Hp in E.
    apply needUpdateLoop_false in E. congruence.
Qed.

(** ** Claims *)

(** C9.  [InitDefaults] sets [Yes], [Force], [CloudOnly] and
    [FailOnDrainError] to false and [FailOnValidate] to true, the master
    and bastion intervals to 5 minutes, the node interval to 4 minutes and
    the drain interval to 90 seconds (in nanoseconds, as [time.Duration]
    counts them), and leaves the cluster name and the group filter as they
    were.  An executor configured from these defaults therefore fails on a
    validation timeout and not on a drain error. *)
Theorem InitDefaults_values (o : RollingUpdateOptions) :
  let o' := InitDefaults o in
  Yes o' = false /\ Force o' = false /\ CloudOnly o' = false
  /\ FailOnDrainError o' = false /\ FailOnValidate o' = true
  /\ MasterInterval o' = (5 * Minute)%Z
  /\ MasterInterval o' = 300000000000%Z
  /\ NodeInterval o' = (4 * Minute)%Z
  /\ NodeInterval o' = 240000000000%Z
  /\ BastionInterval o' = (5 * Minute)%Z
  /\ BastionInterval o' = 300000000000%Z
  /\ DrainInterval o' = (90 * Second)%Z
  /\ DrainInterval o' = 90000000000%Z
  /\ ClusterName o' = ClusterName o
  /\ InstanceGroups o' = InstanceGroups o
  /\ (forall s,
        instancegroups.FailOnValidate (newRollingUpdateCluster o' s) = true
        /\ instancegroups.FailOnDrainError (newRollingUpdateCluster o' s)
           = false).
Proof. cbv zeta. repeat split. Qed.

(** The default intervals are far from the ends of int64. *)
Lemma InitDefaults_in_range (o : RollingUpdateOptions) :
  Forall (fun d : Duration => (0 < d <= int64_max)%Z)
    [MasterInterval (InitDefaults o); NodeInterval (InitDefaults o);
     BastionInterval (InitDefaults o); DrainInterval (InitDefaults o)].
Proof. repeat (apply Forall_cons; split); try apply Forall_nil; done. Qed.

(** C1.  When the snapshot was built and printed, every group's
    [NeedUpdate] is empty and [Force] is false, the command prints "No
    rolling-update required.", returns nil, and its trace has no
    termination and no drain, whatever [Yes] is. *)
Theorem no_update_required (w : World) (o : RollingUpdateOptions)
    (t : list Event) (s : Snapshot) :
  discovery w o = (t, inr s) ->
  Forall (fun kv => cloudinstances.NeedUpdate (snd kv) = [])
         (groups (cloudView s)) ->
  Force o = false ->
  RunRollingUpdateCluster w o
  = (t ++ [Printf (nl +:+ "No rolling-update required." +:+ nl)], inr tt)
  /\ terminations (trace (RunRollingUpdateCluster w o)) = 0
  /\ drains (trace (RunRollingUpdateCluster w o)) = 0.
Proof.
  intros Hd Hfresh Hforce.
  assert (Hrun : RunRollingUpdateCluster w o
                 = (t ++ [Printf (nl +:+ "No rolling-update required." +:+ nl)],
                    inr tt)).
  { unfold RunRollingUpdateCluster. rewrite (bind_ok _ _ _ _ Hd).
    unfold rollingUpdate. apply needUpdateLoop_false in Hfresh.
    now rewrite Hfresh, Hforce. }
  split; [exact Hrun |]. rewrite Hrun. apply no_mutation_of_untouched.
  apply Forall_app. split.
  - pose proof (discovery_events w o) as H. now rewrite Hd in H.
  - now repeat constructor.
Qed.

Lemma no_update_required_witness :
  exists t,
    RunRollingUpdateCluster (healthy fresh_cluster)
      (with_flags true false false [] defaults)
    = (t ++ [Printf (nl +:+ "No rolling-update required." +:+ nl)], inr tt)
    /\ terminations (trace (RunRollingUpdateCluster (healthy fresh_cluster)
                              (with_flags true false false [] defaults))) = 0
    /\ drains (trace (RunRollingUpdateCluster (healthy fresh_cluster)
                        (with_flags true false false [] defaults))) = 0.
Proof.
  eexists. eapply no_update_required.
  - vm_compute. reflexivity.
  - simpl. repeat constructor.
  - reflexivity.
Defined.

(** C2.  When the snapshot was built and printed, some group's
    [NeedUpdate] is non-empty or [Force] is true, and [Yes] is false, the
    command prints "Must specify --yes to rolling-update.", returns nil
    (not an error), and its trace has no termination and no drain. *)
Theorem confirmation_required (w : World) (o : RollingUpdateOptions)
    (t : list Event) (s : Snapshot) :
  discovery w o = (t, inr s) ->
  Exists (fun kv => cloudinstances.NeedUpdate (snd kv) <> [])
         (groups (cloudView s))
  \/ Force o = true ->
  Yes o = false ->
  RunRollingUpdateCluster w o
  = (t ++ [Printf (nl +:+ "Must specify --yes to rolling-update." +:+ nl)],
     inr tt)
  /\ terminations (trace (RunRollingUpdateCluster w o)) = 0
  /\ drains (trace (RunRollingUpdateCluster w o)) = 0.
Proof.
  intros Hd Hneed Hyes.
  assert (Hrun : RunRollingUpdateCluster w o
                 = (t ++ [Printf (nl +:+ "Must specify --yes to rolling-update."
                                     +:+ nl)], inr tt)).
  { unfold RunRollingUpdateCluster. rewrite (bind_ok _ _ _ _ Hd).
    unfold rollingUpdate. rewrite Hyes.
    destruct Hneed as [Hstale | Hforce].
    - now rewrite (needUpdateLoop_stale _ Hstale).
    - rewrite Hforce. now rewrite andb_false_r. }
  split; [exact Hrun |]. rewrite Hrun. apply no_mutation_of_untouched.
  apply Forall_app. split.
  - pose proof (discovery_events w o) as H. now rewrite Hd in H.
  - now repeat constructor.
Qed.

Lemma confirmation_required_witness :
  exists t,
    RunRollingUpdateCluster (healthy stale_cluster) defaults
    = (t ++ [Printf (nl +:+ "Must specify --yes to rolling-update." +:+ nl)],
       inr tt)
    /\ terminations (trace (RunRollingUpdateCluster (healthy stale_cluster)
                              defaults)) = 0
    /\ drains (trace (RunRollingUpdateCluster (healthy stale_cluster)
                        defaults)) = 0.
Proof.
  eexists. eapply confirmation_required.
  - vm_compute. reflexivity.
  - left. simpl. apply Exists_cons_hd. simpl. discriminate.
  - reflexivity.
Defined.

(** ** The filter of lines 249-271 *)

Lemma findInstanceGroup_seq (name : string) (rest pre : list api.InstanceGroup) :
  findInstanceGroup (pre ++ rest) (seq (length pre) (length rest)) name
  = (fun i => length pre + i) <$> firstNamed rest name.
Proof.
  revert pre. induction rest as [| ig rest IH]; intros pre; [reflexivity |].
  cbn [length seq findInstanceGroup]. rewrite list_lookup_middle by reflexivity.
  unfold firstNamed. cbn [list_find]. simpl.
  destruct (decide (Some (api.Name ig) = Some name)) as [Heq | Hne].
  - injection Heq as Heq. rewrite decide_True by exact Heq. simpl.
    f_equal. lia.
  - rewrite decide_False by congruence.
    specialize (IH (pre ++ [ig])).
    rewrite <- app_assoc, length_app in IH. simpl in IH.
    replace (length pre + 1) with (S (length pre)) in IH by lia.
    rewrite IH. unfold firstNamed.
    destruct (list_find _ rest) as [[i x] |]; simpl; [| reflexivity].
    f_equal. lia.
Qed.

Lemma findInstanceGroup_addresses items name :
  findInstanceGroup items (addresses items) name = firstNamed items name.
Proof.
  pose proof (findInstanceGroup_seq name items []) as H. simpl in H.
  unfold addresses. rewrite H. now destruct (firstNamed items name).
Qed.

Lemma firstNamed_Some items name p :
  firstNamed items name = Some p
  <-> exists ig, items !! p = Some ig /\ api.Name ig = name
                 /\ forall q ig', items !! q = Some ig' -> q < p ->
                                  api.Name ig' <> name.
Proof.
  unfold firstNamed. split.
  - destruct (list_find _ items) as [[i x] |] eqn:E; [| discriminate].
    simpl. intros [= ->]. apply list_find_Some in E as (? & ? & ?). eauto.
  - intros (ig & Hig & Hname & Hleast).
    assert (list_find (fun ig => api.Name ig = name) items = Some (p, ig)) as ->;
      [| reflexivity].
    apply list_find_Some. eauto.
Qed.

Lemma firstNamed_None items name :
  firstNamed items name = None <-> unmatched items name.
Proof.
  unfold firstNamed, unmatched.
  destruct (list_find _ items) as [[i x] |] eqn:E; simpl.
  - split; [discriminate |]. intros H.
    apply list_find_Some in E as (Hx%list_elem_of_lookup_2 & Hname & _).
    rewrite Forall_forall in H. now apply H in Hx.
  - split; [| reflexivity]. intros _. now apply list_find_None in E.
Qed.

Lemma firstNamed_inj items n1 n2 p :
  firstNamed items n1 = Some p -> firstNamed items n2 = Some p -> n1 = n2.
Proof.
  intros (ig1 & H1 & <- & _)%firstNamed_Some (ig2 & H2 & <- & _)%firstNamed_Some.
  congruence.
Qed.

(** The loop returns the images of the names, after what it was given. *)
Lemma filterLoop_found items names acc found :
  mapM (firstNamed items) names = Some found ->
  filterLoop items (addresses items) names acc = inr (acc ++ found).
Proof.
  revert acc found. induction names as [| name names IH]; intros acc found.
  - intros [= <-]. simpl. now rewrite app_nil_r.
  - cbn [mapM filterLoop]. rewrite findInstanceGroup_addresses.
    destruct (firstNamed items name) as [p |]; [| discriminate]. simpl.
    destruct (mapM (firstNamed items) names) as [ps |]; [| discriminate].
    simpl. intros [= <-]. rewrite (IH _ ps eq_refl).
    now rewrite <- app_assoc.
Qed.

(** The loop stops at the first name without a group. *)
Lemma filterLoop_not_found items names acc :
  Exists (unmatched items) names ->
  exists pre name post,
    names = pre ++ name :: post
    /\ Forall (fun n => is_Some (firstNamed items n)) pre
    /\ unmatched items name
    /\ filterLoop items (addresses items) names acc
       = inl (InstanceGroup_not_found name).
Proof.
  revert acc. induction names as [| n names IH]; intros acc Hex.
  - now apply Exists_nil in Hex.
  - cbn [filterLoop]. rewrite findInstanceGroup_addresses.
    destruct (firstNamed items n) as [p |] eqn:E.
    + apply Exists_cons in Hex as [Hn | Hex].
      { apply firstNamed_None in Hn. congruence. }
      destruct (IH (acc ++ [p]) Hex) as (pre & name & post & -> & Hpre & Hun & Hr).
      exists (n :: pre), name, post. split_and!; try done.
      constructor; [by rewrite E | done].
    + exists [], n, names. split_and!; try done.
      now apply firstNamed_None.
Qed.

Lemma firstNamed_is_Some items name :
  is_Some (firstNamed items name)
  <-> Exists (fun ig => api.Name ig = name) items.
Proof.
  split.
  - intros [p (ig & Hig & Hname & _)%firstNamed_Some].
    apply Exists_exists. exists ig. split; [| exact Hname].
    eapply list_elem_of_lookup_2, Hig.
  - intros (ig & Hin & Hname)%Exists_exists.
    destruct (firstNamed items name) eqn:E; [eauto |].
    apply firstNamed_None in E. unfold unmatched in E.
    rewrite Forall_forall in E. now apply E in Hin.
Qed.

Lemma filterInstanceGroups_not_found o items :
  Exists (unmatched items) (InstanceGroups o) ->
  exists pre name post,
    InstanceGroups o = pre ++ name :: post
    /\ Forall (fun n => Exists (fun ig => api.Name ig = n) items) pre
    /\ unmatched items name
    /\ filterInstanceGroups o items = ([], inl (InstanceGroup_not_found name)).
Proof.
  intros Hex.
  destruct (filterLoop_not_found items _ [] Hex)
    as (pre & name & post & Hnames & Hpre & Hun & Hloop).
  exists pre, name, post. split_and!; try done.
  - eapply Forall_impl; [exact Hpre |]. intros n. apply firstNamed_is_Some.
  - unfold filterInstanceGroups. rewrite decide_True.
    + now rewrite Hloop.
    + rewrite Hnames, length_app. simpl. lia.
Qed.

(** C3.  Once the cluster, the kubecfg settings, the nodes (unless
    [CloudOnly]) and the declared instance groups have been read, a
    requested name that no declared group bears makes the command return
    "InstanceGroup <name> not found" for the first such name in request
    order.  The run ends right after the listing of the instance groups:
    its trace has no query to the cloud and no step on any instance. *)
Theorem unknown_instance_group_not_found (w : World) (o : RollingUpdateOptions)
    (t1 t2 t3 : list Event) (s : Session) (n : ClusterNodes)
    (items : list api.InstanceGroup) :
  loadConfig w o = (t1, inr s) ->
  listNodes w o s = (t2, inr n) ->
  listInstanceGroups w s = (t3, inr items) ->
  Exists (unmatched items) (InstanceGroups o) ->
  exists pre name post,
    InstanceGroups o = pre ++ name :: post
    /\ Forall (fun n => Exists (fun ig => api.Name ig = n) items) pre
    /\ unmatched items name
    /\ RunRollingUpdateCluster w o
       = (t1 ++ t2 ++ t3, inl (InstanceGroup_not_found name))
    /\ count queries_cloud (trace (RunRollingUpdateCluster w o)) = 0
    /\ count touches_instance (trace (RunRollingUpdateCluster w o)) = 0.
Proof.
  intros H1 H2 H3 Hex.
  destruct (filterInstanceGroups_not_found o items Hex)
    as (pre & name & post & Hnames & Hpre & Hun & Hfilter).
  exists pre, name, post. split_and!; try done.
  all: unfold RunRollingUpdateCluster, discovery;
    rewrite H1; cbn [bind fst snd]; rewrite H2; cbn [bind fst snd];
    rewrite H3; cbn [bind fst snd]; rewrite Hfilter; cbn [bind fst snd trace].
  - now rewrite !app_nil_r.
  - rewrite !count_app.
    pose proof (loadConfig_events w o) as E1. rewrite H1 in E1.
    pose proof (listNodes_events w o s) as E2. rewrite H2 in E2.
    pose proof (listInstanceGroups_events w s) as E3. rewrite H3 in E3.
    rewrite (count_zero _ t1), (count_zero _ t2), (count_zero _ t3);
      [reflexivity | ..].
    + eapply Forall_impl; [exact E3 |]. now intros [].
    + eapply Forall_impl; [exact E2 |]. now intros [].
    + eapply Forall_impl; [exact E1 |]. now intros [].
  - rewrite !count_app.
    pose proof (loadConfig_events w o) as E1. rewrite H1 in E1.
    pose proof (listNodes_events w o s) as E2. rewrite H2 in E2.
    pose proof (listInstanceGroups_events w s) as E3. rewrite H3 in E3.
    rewrite (count_zero _ t1), (count_zero _ t2), (count_zero _ t3);
      [reflexivity | ..].
    + eapply Forall_impl; [exact E3 |]. now intros [].
    + eapply Forall_impl; [exact E2 |]. now intros [].
    + eapply Forall_impl; [exact E1 |]. now intros [].
Qed.

Lemma unknown_instance_group_not_found_witness :
  exists pre name post,
    InstanceGroups (with_flags true false false ["masters"; "spot"] defaults)
    = pre ++ name :: post
    /\ Forall (fun n => Exists (fun ig => api.Name ig = n) declared) pre
    /\ unmatched declared name
    /\ RunRollingUpdateCluster (healthy stale_cluster)
         (with_flags true false false ["masters"; "spot"] defaults)
       = ([Call_Clientset; Call_GetCluster "k8s.example.com";
           Call_ClientConfig "k8s.example.com"]
          ++ [Call_NewForConfig (config_handle 2); Call_Nodes_List (k8s_handle 3)]
          ++ [Call_InstanceGroups_List
                {| api.ClusterObjectName := "k8s.example.com" |}],
          inl (InstanceGroup_not_found name))
    /\ count queries_cloud
         (trace (RunRollingUpdateCluster (healthy stale_cluster)
                   (with_flags true false false ["masters"; "spot"] defaults)))
       = 0
    /\ count touches_instance
         (trace (RunRollingUpdateCluster (healthy stale_cluster)
                   (with_flags true false false ["masters"; "spot"] defaults)))
       = 0.
Proof.
  eapply unknown_instance_group_not_found.
  - vm_compute. reflexivity.
  - vm_compute. reflexivity.
  - vm_compute. reflexivity.
  - apply Exists_cons_tl, Exists_cons_hd. unfold unmatched, declared.
    repeat constructor; simpl; discriminate.
Defined.

(** Equal names have equal images, and conversely, so a name and its
    image occur equally often. *)
Lemma count_occ_images items names targets name p :
  Forall2 (fun n q => firstNamed items n = Some q) names targets ->
  firstNamed items name = Some p ->
  count_occ Nat.eq_dec targets p = count_occ String.string_dec names name.
Proof.
  intros H Hp. induction H as [| n q names targets Hn _ IH]; [reflexivity |].
  simpl. rewrite IH.
  destruct (Nat.eq_dec q p) as [-> | Hne], (String.string_dec n name) as [-> | Hne'];
    try reflexivity.
  - contradiction Hne'. eapply firstNamed_inj; eassumption.
  - congruence.
Qed.

(** C10.  With a non-empty filter whose names all denote declared groups,
    the target list has one entry per requested name, in request order:
    the address of the first declared group with that name.  Nothing is
    logged, and no warning about unmatched cloud groups is asked for.  A
    name that occurs k times in the filter puts that address k times in
    the target list. *)
Theorem filter_targets (o : RollingUpdateOptions)
    (items : list api.InstanceGroup) :
  InstanceGroups o <> [] ->
  Forall (fun name => Exists (fun ig => api.Name ig = name) items)
         (InstanceGroups o) ->
  exists found,
    filterInstanceGroups o items
    = ([], inr {| instanceGroups := found; warnUnmatched := false |})
    /\ length found = length (InstanceGroups o)
    /\ (forall i name, InstanceGroups o !! i = Some name ->
          exists p ig,
            found !! i = Some p
            /\ items !! p = Some ig
            /\ api.Name ig = name
            /\ forall q ig', items !! q = Some ig' -> q < p ->
                             api.Name ig' <> name)
    /\ (forall i name p, InstanceGroups o !! i = Some name ->
          found !! i = Some p ->
          count_occ Nat.eq_dec found p
          = count_occ String.string_dec (InstanceGroups o) name).
Proof.
  intros Hne Hall.
  assert (is_Some (mapM (firstNamed items) (InstanceGroups o)))
    as [found Hfound].
  { apply mapM_is_Some. eapply Forall_impl; [exact Hall |].
    intros n. apply firstNamed_is_Some. }
  pose proof Hfound as Himg. apply mapM_Some in Himg.
  exists found. split_and!.
  - unfold filterInstanceGroups. rewrite decide_True.
    + now rewrite (filterLoop_found _ _ [] _ Hfound).
    + destruct (InstanceGroups o); [done | simpl; lia].
  - symmetry. eapply Forall2_length, Himg.
  - intros i name Hi.
    destruct (Forall2_lookup_l _ _ _ _ _ Himg Hi) as (p & Hp & Hfirst).
    apply firstNamed_Some in Hfirst as (ig & ? & ? & ?). eauto 10.
  - intros i name p Hi Hp.
    destruct (Forall2_lookup_l _ _ _ _ _ Himg Hi) as (p' & Hp' & Hfirst).
    assert (p' = p) as -> by congruence.
    eapply count_occ_images; eassumption.
Qed.

Lemma filter_targets_witness :
  exists found,
    filterInstanceGroups
      (with_flags true false false ["masters"; "bastions"; "masters"] defaults)
      declared
    = ([], inr {| instanceGroups := found; warnUnmatched := false |})
    /\ length found = 3
    /\ (forall i name,
          ["masters"; "bastions"; "masters"] !! i = Some name ->
          exists p ig,
            found !! i = Some p
            /\ declared !! p = Some ig
            /\ api.Name ig = name
            /\ forall q ig', declared !! q = Some ig' -> q < p ->
                             api.Name ig' <> name)
    /\ (forall i name p,
          ["masters"; "bastions"; "masters"] !! i = Some name ->
          found !! i = Some p ->
          count_occ Nat.eq_dec found p
          = count_occ String.string_dec ["masters"; "bastions"; "masters"] name).
Proof.
  apply (filter_targets
           (with_flags true false false ["masters"; "bastions"; "masters"]
              defaults) declared).
  - simpl. discriminate.
  - simpl. unfold declared.
    apply Forall_cons. split.
    { apply Exists_cons_tl, Exists_cons_hd. reflexivity. }
    apply Forall_cons. split.
    { apply Exists_cons_tl, Exists_cons_tl, Exists_cons_hd. reflexivity. }
    apply Forall_cons. split.
    { apply Exists_cons_tl, Exists_cons_hd. reflexivity. }
    constructor.
Defined.

(** The filter of the witness, evaluated: "masters" is [list.Items[1]]
    and enters the target list twice. *)
Example filter_targets_example :
  filterInstanceGroups
    (with_flags true false false ["masters"; "bastions"; "masters"] defaults)
    declared
  = ([], inr {| instanceGroups := [1; 2; 1]; warnUnmatched := false |}).
Proof. reflexivity. Qed.

(** ** The events of the executor and of the whole command *)

Lemma elem_of_trace_bind {A B : Type} (m : Run A) (k : A -> Run B) e :
  e ∈ trace (bind m k) ->
  e ∈ trace m \/ exists a, result m = inr a /\ e ∈ trace (k a).
Proof.
  rewrite trace_bind, elem_of_app. intros [H | H]; [now left | right].
  destruct (result m) as [err | a]; [| eauto].
  now apply not_elem_of_nil in H.
Qed.

Lemma rollInstance_events w d role g m :
  Forall (group_event role) (trace (instancegroups.rollInstance w d role g m)).
Proof.
  unfold instancegroups.rollInstance, instancegroups.drain,
    instancegroups.terminate, instancegroups.validate.
  events.
Qed.

Lemma rollGroup_events w d kv :
  Forall (group_event (api.Role (cloudinstances.InstanceGroup (snd kv))))
         (trace (instancegroups.rollGroup w d kv)).
Proof.
  unfold instancegroups.rollGroup. apply Forall_trace_forM_.
  intros m _. apply rollInstance_events.
Qed.

Lemma RollingUpdate_events w d gs l :
  Forall executor_event (trace (instancegroups.RollingUpdate w d gs l)).
Proof.
  unfold instancegroups.RollingUpdate. apply Forall_trace_forM_.
  intros kv _. eapply Forall_impl; [apply rollGroup_events |].
  now intros [].
Qed.

Lemma rollingUpdate_events w o s :
  Forall (fun e => match e with
                   | Printf _ | Glog _ => True
                   | _ => executor_event e
                   end)
         (trace (rollingUpdate w o s)).
Proof.
  unfold rollingUpdate.
  destruct (_ && _); [now repeat constructor |].
  destruct (negb _); [now repeat constructor |].
  apply Forall_trace_bind.
  - destruct (DrainAndValidateRollingUpdate_Enabled w); now repeat constructor.
  - intros _ _. eapply Forall_impl; [apply RollingUpdate_events |].
    now intros [].
Qed.

(** Where a call of [GetCloudGroups] in the trace comes from: line 278,
    with the arguments computed by the blocks before it. *)
Lemma GetCloudGroups_call w o igs warn ns :
  Call_GetCloudGroups igs warn ns ∈ trace (RunRollingUpdateCluster w o) ->
  exists s n items t,
    result (loadConfig w o) = inr s
    /\ result (listNodes w o s) = inr n
    /\ result (listInstanceGroups w s) = inr items
    /\ result (filterInstanceGroups o items) = inr t
    /\ igs = instanceGroups t /\ warn = warnUnmatched t /\ ns = nodes n.
Proof.
  unfold RunRollingUpdateCluster.
  intros [H | (s0 & _ & H)]%elem_of_trace_bind.
  2: { pose proof (rollingUpdate_events w o s0) as E.
       rewrite Forall_forall in E. now apply E in H. }
  unfold discovery in H.
  apply elem_of_trace_bind in H as [H | (s & Hs & H)].
  { pose proof (loadConfig_events w o) as E.
    rewrite Forall_forall in E. now apply E in H. }
  apply elem_of_trace_bind in H as [H | (n & Hn & H)].
  { pose proof (listNodes_events w o s) as E.
    rewrite Forall_forall in E. now apply E in H. }
  apply elem_of_trace_bind in H as [H | (items & Hitems & H)].
  { pose proof (listInstanceGroups_events w s) as E.
    rewrite Forall_forall in E. now apply E in H. }
  apply elem_of_trace_bind in H as [H | (t & Ht & H)].
  { rewrite filterInstanceGroups_silent in H. now apply not_elem_of_nil in H. }
  apply elem_of_trace_bind in H as [H | (v & Hv & H)].
  { pose proof (getCloudGroups_events w s items t n) as E.
    rewrite Forall_forall in E. apply E in H as [H | H]; [discriminate |].
    injection H as -> -> ->. exists s, n, items, t. now repeat split. }
  apply elem_of_trace_bind in H as [H | (u & _ & H)].
  { rewrite renderTable_events in H.
    apply list_elem_of_singleton in H. discriminate. }
  now apply not_elem_of_nil in H.
Qed.

Lemma filterInstanceGroups_warnUnmatched o items t :
  result (filterInstanceGroups o items) = inr t ->
  (warnUnmatched t = true <-> InstanceGroups o = []).
Proof.
  unfold filterInstanceGroups. destruct (decide _) as [Hne | Hz].
  - destruct (filterLoop _ _ _ _); simpl; [discriminate |].
    intros [= <-]. simpl. split; [discriminate |].
    intros H. rewrite H in Hne. now contradiction Hne.
  - intros [= <-]. simpl. split; [| reflexivity]. intros _.
    destruct (InstanceGroups o); [reflexivity |].
    contradiction Hz. simpl. lia.
Qed.

(** What a successful [discovery] went through. *)
Lemma discovery_inv w o t s :
  discovery w o = (t, inr s) ->
  loadConfig w o = (trace (loadConfig w o), inr (session s))
  /\ listNodes w o (session s)
     = (trace (listNodes w o (session s)), inr (clusterNodes s))
  /\ listInstanceGroups w (session s)
     = (trace (listInstanceGroups w (session s)), inr (list_Items s))
  /\ filterInstanceGroups o (list_Items s) = ([], inr (targets s))
  /\ getCloudGroups w (session s) (list_Items s) (targets s) (clusterNodes s)
     = (trace (getCloudGroups w (session s) (list_Items s) (targets s)
                 (clusterNodes s)),
        inr (cloudView s))
  /\ Table_Render w (map snd (groups (cloudView s))) (columns o) = None.
Proof.
  unfold discovery.
  destruct (loadConfig w o) as [t1 [e | s1]] eqn:E1; [discriminate |].
  cbn [bind fst snd].
  destruct (listNodes w o s1) as [t2 [e | n]] eqn:E2; [discriminate |].
  cbn [bind fst snd].
  destruct (listInstanceGroups w s1) as [t3 [e | items]] eqn:E3;
    [discriminate |].
  cbn [bind fst snd].
  pose proof (filterInstanceGroups_silent o items) as Hsilent.
  destruct (filterInstanceGroups o items) as [t4 [e | tg]] eqn:E4;
    [discriminate |].
  cbn [bind fst snd]. simpl in Hsilent. subst t4.
  destruct (getCloudGroups w s1 items tg n) as [t5 [e | v]] eqn:E5;
    [discriminate |].
  cbn [bind fst snd]. unfold renderTable, call, of_err.
  destruct (Table_Render w (map snd (groups v)) (columns o)) eqn:E6;
    [discriminate |].
  cbn [bind fst snd ret]. intros [= <- <-]. cbn [session clusterNodes
    list_Items targets cloudView trace fst].
  rewrite E2, E3, E4, E5. now repeat split.
Qed.

(** C6.  With [CloudOnly] false, once the cluster and the kubecfg settings
    are loaded and the client is built, a failure of the node listing
    makes the command print "Unable to reach the kubernetes API." and the
    advice to use --cloudonly on the standard error, and return "error
    listing nodes in cluster: <err>".  The run ends there: its trace has
    no listing of the instance groups, no query to the cloud and no step
    on any instance. *)
Theorem cluster_unreachable (w : World) (o : RollingUpdateOptions)
    (t : list Event) (s : Session) (k : kubernetes_Interface) (err : error) :
  CloudOnly o = false ->
  loadConfig w o = (t, inr s) ->
  NewForConfig w (config s) = inr k ->
  Nodes_List w k = inl err ->
  RunRollingUpdateCluster w o
  = (t ++ [Call_NewForConfig (config s); Call_Nodes_List k;
           Stderr ("Unable to reach the kubernetes API." +:+ nl);
           Stderr ("Use --cloudonly to do a rolling-update without confirming progress with the k8s API"
                     +:+ nl +:+ nl)],
     inl (error_listing_nodes err))
  /\ count lists_instance_groups (trace (RunRollingUpdateCluster w o)) = 0
  /\ count queries_cloud (trace (RunRollingUpdateCluster w o)) = 0
  /\ count touches_instance (trace (RunRollingUpdateCluster w o)) = 0.
Proof.
  intros Hcloud Hload Hnew Hlist.
  assert (Hrun : RunRollingUpdateCluster w o
    = (t ++ [Call_NewForConfig (config s); Call_Nodes_List k;
             Stderr ("Unable to reach the kubernetes API." +:+ nl);
             Stderr ("Use --cloudonly to do a rolling-update without confirming progress with the k8s API"
                       +:+ nl +:+ nl)],
       inl (error_listing_nodes err))).
  { unfold RunRollingUpdateCluster, discovery. rewrite Hload.
    cbn [bind fst snd]. unfold listNodes. rewrite Hcloud, Hnew.
    cbn [bind call wrap emit fst snd]. rewrite Hlist. reflexivity. }
  split; [exact Hrun |]. rewrite Hrun. cbn [trace fst].
  pose proof (loadConfig_events w o) as E. rewrite Hload in E.
  cbn [trace fst] in E.
  rewrite !count_app. split_and!.
  - rewrite (count_zero _ t); [reflexivity |].
    eapply Forall_impl; [exact E |]. now intros [].
  - rewrite (count_zero _ t); [reflexivity |].
    eapply Forall_impl; [exact E |]. now intros [].
  - rewrite (count_zero _ t); [reflexivity |].
    eapply Forall_impl; [exact E |]. now intros [].
Qed.

Lemma cluster_unreachable_witness :
  RunRollingUpdateCluster (unreachable stale_cluster)
    (with_flags true false false [] defaults)
  = ([Call_Clientset; Call_GetCluster "k8s.example.com";
      Call_ClientConfig "k8s.example.com"]
     ++ [Call_NewForConfig (config_handle 2); Call_Nodes_List (k8s_handle 3);
         Stderr ("Unable to reach the kubernetes API." +:+ nl);
         Stderr ("Use --cloudonly to do a rolling-update without confirming progress with the k8s API"
                   +:+ nl +:+ nl)],
     inl (error_listing_nodes (collaborator_error "connection refused")))
  /\ count lists_instance_groups
       (trace (RunRollingUpdateCluster (unreachable stale_cluster)
                 (with_flags true false false [] defaults))) = 0
  /\ count queries_cloud
       (trace (RunRollingUpdateCluster (unreachable stale_cluster)
                 (with_flags true false false [] defaults))) = 0
  /\ count touches_instance
       (trace (RunRollingUpdateCluster (unreachable stale_cluster)
                 (with_flags true false false [] defaults))) = 0.
Proof.
  apply (cluster_unreachable (unreachable stale_cluster)
           (with_flags true false false [] defaults)
           [Call_Clientset; Call_GetCluster "k8s.example.com";
            Call_ClientConfig "k8s.example.com"]
           {| clientset := clientset_handle 1;
              cluster := {| api.ClusterObjectName := "k8s.example.com" |};
              config := config_handle 2 |}
           (k8s_handle 3) (collaborator_error "connection refused")).
  - reflexivity.
  - vm_compute. reflexivity.
  - reflexivity.
  - reflexivity.
Defined.

(** C7.  With [CloudOnly] true the trace has no construction of a cluster
    API client and no listing of the nodes; every call of [GetCloudGroups]
    in it is given an empty node list; and a run that gets past the table
    holds no client and no nodes, so that the executor's [K8sClient] is
    nil. *)
Theorem cloud_only_skips_cluster_api (w : World) (o : RollingUpdateOptions) :
  CloudOnly o = true ->
  count uses_cluster_api (trace (RunRollingUpdateCluster w o)) = 0
  /\ (forall igs warn ns,
        Call_GetCloudGroups igs warn ns ∈ trace (RunRollingUpdateCluster w o) ->
        ns = [])
  /\ (forall t s,
        discovery w o = (t, inr s) ->
        k8sClient (clusterNodes s) = None
        /\ nodes (clusterNodes s) = []
        /\ instancegroups.K8sClient (newRollingUpdateCluster o s) = None).
Proof.
  intros Hcloud. split_and!.
  - apply count_zero. unfold RunRollingUpdateCluster.
    apply Forall_trace_bind.
    + unfold discovery.
      apply Forall_trace_bind; [| intros s _].
      { eapply Forall_impl; [apply loadConfig_events |]. now intros []. }
      apply Forall_trace_bind; [| intros n _].
      { rewrite listNodes_CloudOnly by exact Hcloud. constructor. }
      apply Forall_trace_bind; [| intros items _].
      { eapply Forall_impl; [apply listInstanceGroups_events |]. now intros []. }
      apply Forall_trace_bind; [| intros tg _].
      { rewrite filterInstanceGroups_silent. constructor. }
      apply Forall_trace_bind; [| intros v _].
      { eapply Forall_impl; [apply getCloudGroups_events |].
        now intros e [-> | ->]. }
      apply Forall_trace_bind; [| intros _ _].
      { rewrite renderTable_events. now repeat constructor. }
      constructor.
    + intros s _. eapply Forall_impl; [apply rollingUpdate_events |].
      now intros [].
  - intros igs warn ns H.
    apply GetCloudGroups_call in H
      as (s & n & items & tg & _ & Hn & _ & _ & _ & _ & ->).
    rewrite listNodes_CloudOnly in Hn by exact Hcloud.
    simpl in Hn. now injection Hn as <-.
  - intros t s H. apply discovery_inv in H as (_ & Hn & _).
    rewrite listNodes_CloudOnly in Hn by exact Hcloud.
    injection Hn as Hn. unfold newRollingUpdateCluster. simpl.
    now rewrite <- Hn.
Qed.

Lemma cloud_only_skips_cluster_api_witness :
  count uses_cluster_api
    (trace (RunRollingUpdateCluster (unreachable stale_cluster)
              (with_flags true false true [] defaults))) = 0
  /\ (forall igs warn ns,
        Call_GetCloudGroups igs warn ns
          ∈ trace (RunRollingUpdateCluster (unreachable stale_cluster)
                     (with_flags true false true [] defaults)) ->
        ns = [])
  /\ (forall t s,
        discovery (unreachable stale_cluster)
          (with_flags true false true [] defaults) = (t, inr s) ->
        k8sClient (clusterNodes s) = None
        /\ nodes (clusterNodes s) = []
        /\ instancegroups.K8sClient
             (newRollingUpdateCluster (with_flags true false true [] defaults) s)
           = None).
Proof.
  apply (cloud_only_skips_cluster_api (unreachable stale_cluster)
           (with_flags true false true [] defaults)).
  reflexivity.
Defined.

(** C8.  Whenever the command calls [GetCloudGroups], the flag
    [warnUnmatched] it passes is true exactly when the options name no
    instance group. *)
Theorem warnUnmatched_iff_no_filter (w : World) (o : RollingUpdateOptions)
    (igs : list InstanceGroupPtr) (warn : bool) (ns : list v1.Node) :
  Call_GetCloudGroups igs warn ns ∈ trace (RunRollingUpdateCluster w o) ->
  (warn = true <-> InstanceGroups o = []).
Proof.
  intros H.
  apply GetCloudGroups_call in H
    as (s & n & items & tg & _ & _ & _ & Htg & _ & -> & _).
  now apply filterInstanceGroups_warnUnmatched in Htg.
Qed.

Lemma warnUnmatched_iff_no_filter_witness :
  (true = true <-> InstanceGroups defaults = [])
  /\ (false = true
      <-> InstanceGroups (with_flags false false true ["nodes"] defaults) = []).
Proof.
  split.
  - apply (warnUnmatched_iff_no_filter (healthy stale_cluster) defaults
             [0; 1; 2] true [ {| v1.NodeName := "ip-10-0-0-1" |} ]).
    vm_compute. do 7 apply list_elem_of_further. apply list_elem_of_here.
  - apply (warnUnmatched_iff_no_filter (healthy stale_cluster)
             (with_flags false false true ["nodes"] defaults) [0] false []).
    vm_compute. do 5 apply list_elem_of_further. apply list_elem_of_here.
Defined.

(** A cloud-only run over a cluster whose API is down: the snapshot is
    asked for with the three declared groups, the warning on, and no
    nodes. *)
Example cloud_only_snapshot_call :
  List.filter queries_cloud
    (trace (RunRollingUpdateCluster (unreachable stale_cluster)
              (with_flags false false true [] defaults)))
  = [Call_BuildCloud {| api.ClusterObjectName := "k8s.example.com" |};
     Call_GetCloudGroups [0; 1; 2] true []].
Proof. reflexivity. Qed.

(** ** The order of the executor *)

Lemma bind_assoc {A B C : Type} (m : Run A) (k : A -> Run B) (h : B -> Run C) :
  bind (bind m k) h = bind m (fun a => bind (k a) h).
Proof.
  destruct m as [t [e | a]]; [reflexivity |]. cbn [bind fst snd].
  destruct (k a) as [t' [e | b]]; cbn [bind fst snd]; [reflexivity |].
  now rewrite app_assoc.
Qed.

Lemma bind_ret_l {A B : Type} (a : A) (k : A -> Run B) : bind (ret a) k = k a.
Proof. unfold ret. cbn [bind]. now destruct (k a). Qed.

Lemma forM__app {A : Type} (l1 l2 : list A) (f : A -> Run unit) :
  forM_ (l1 ++ l2) f = bind (forM_ l1 f) (fun _ => forM_ l2 f).
Proof.
  induction l1 as [| x l1 IH]; cbn [app forM_].
  - now rewrite bind_ret_l.
  - now rewrite bind_assoc, IH.
Qed.

(** In a loop that ended without error, each iteration ended without
    error and its events are in the trace of the loop. *)
Lemma forM__completed {A : Type} (l : list A) (f : A -> Run unit) (x : A) :
  result (forM_ l f) = inr tt ->
  x ∈ l ->
  result (f x) = inr tt
  /\ exists ta tb, trace (forM_ l f) = ta ++ trace (f x) ++ tb.
Proof.
  induction l as [| y l IH]; intros Hok Hin.
  - now apply not_elem_of_nil in Hin.
  - cbn [forM_] in *. rewrite result_bind in Hok. rewrite trace_bind.
    destruct (result (f y)) as [e | []] eqn:Ey; [discriminate |].
    apply elem_of_cons in Hin as [-> | Hin].
    + split; [exact Ey |]. now exists [], (trace (forM_ l f)).
    + destruct (IH Hok Hin) as (Hx & ta & tb & Ht). split; [exact Hx |].
      exists (trace (f y) ++ ta), tb. now rewrite Ht, <- app_assoc.
Qed.

(** An event that is not in the first part of a list is found in the
    second. *)
Lemma app_eq_skip (a b t1 t2 : list Event) (e : Event) :
  a ++ b = t1 ++ e :: t2 ->
  e ∉ a ->
  exists t1', t1 = a ++ t1' /\ b = t1' ++ e :: t2.
Proof.
  revert t1. induction a as [| x a IH]; intros t1 Heq Hnot.
  - now exists t1.
  - destruct t1 as [| y t1]; simpl in Heq; injection Heq as -> Heq.
    + contradiction Hnot. left.
    + destruct (IH t1 Heq) as (t1' & -> & ->).
      * intros H. apply Hnot. now right.
      * now exists t1'.
Qed.

(** A step that is not in the trace of the first part of a loop is in the
    trace of the second part, and the first part ended without error. *)
Lemma forM__skip {A : Type} (l1 l2 : list A) (f : A -> Run unit)
    (t1 t2 : list Event) (e : Event) :
  trace (forM_ (l1 ++ l2) f) = t1 ++ e :: t2 ->
  e ∉ trace (forM_ l1 f) ->
  result (forM_ l1 f) = inr tt
  /\ exists t1', t1 = trace (forM_ l1 f) ++ t1'
                 /\ trace (forM_ l2 f) = t1' ++ e :: t2.
Proof.
  rewrite forM__app, trace_bind. intros Heq Hnot.
  destruct (app_eq_skip _ _ _ _ _ Heq Hnot) as (t1' & -> & Hrest).
  destruct (result (forM_ l1 f)) as [err | []].
  - now destruct t1'.
  - split; [reflexivity |]. now exists t1'.
Qed.

Lemma elem_of_filter_hasRole role kv (groups : CloudGroups) :
  kv ∈ List.filter (instancegroups.hasRole role) groups
  <-> kv ∈ groups /\ api.Role (cloudinstances.InstanceGroup (snd kv)) = role.
Proof.
  rewrite !list_elem_of_In, filter_In. unfold instancegroups.hasRole.
  destruct role, (api.Role _); intuition congruence.
Qed.

(** The steps of a loop over groups are steps on groups of the types of
    these groups. *)
Lemma rollGroups_roles w d (P : api.InstanceGroupRole -> Prop)
    (l : CloudGroups) :
  Forall (fun kv => P (api.Role (cloudinstances.InstanceGroup (snd kv)))) l ->
  Forall (fun e => forall role g i step, e = Exec role g i step -> P role)
         (trace (forM_ l (instancegroups.rollGroup w d))).
Proof.
  intros HP. apply Forall_trace_forM_. intros kv Hkv.
  rewrite Forall_forall in HP. specialize (HP kv Hkv).
  eapply Forall_impl; [apply rollGroup_events |].
  intros [] He; try contradiction; intros role' g' i' step' [= -> _ _ _].
  simpl in He. now subst.
Qed.

(** The groups of the executor's loop, split at a type: those of an
    earlier type come first. *)
Lemma groups_split_at role (groups : CloudGroups) :
  exists lo hi,
    List.filter (instancegroups.hasRole api.InstanceGroupRoleBastion) groups
      ++ List.filter (instancegroups.hasRole api.InstanceGroupRoleMaster) groups
      ++ List.filter (instancegroups.hasRole api.InstanceGroupRoleNode) groups
    = lo ++ hi
    /\ Forall (fun kv => rank (api.Role (cloudinstances.InstanceGroup (snd kv)))
                         < rank role) lo
    /\ Forall (fun kv => rank role
                         <= rank (api.Role (cloudinstances.InstanceGroup (snd kv))))
              hi
    /\ (forall kv, kv ∈ groups ->
          rank (api.Role (cloudinstances.InstanceGroup (snd kv))) < rank role ->
          kv ∈ lo).
Proof.
  set (B := List.filter (instancegroups.hasRole api.InstanceGroupRoleBastion) groups).
  set (M := List.filter (instancegroups.hasRole api.InstanceGroupRoleMaster) groups).
  set (N := List.filter (instancegroups.hasRole api.InstanceGroupRoleNode) groups).
  assert (HB : Forall (fun kv => api.Role (cloudinstances.InstanceGroup (snd kv))
                                 = api.InstanceGroupRoleBastion) B).
  { apply Forall_forall. now intros kv [_ H]%elem_of_filter_hasRole. }
  assert (HM : Forall (fun kv => api.Role (cloudinstances.InstanceGroup (snd kv))
                                 = api.InstanceGroupRoleMaster) M).
  { apply Forall_forall. now intros kv [_ H]%elem_of_filter_hasRole. }
  assert (HN : Forall (fun kv => api.Role (cloudinstances.InstanceGroup (snd kv))
                                 = api.InstanceGroupRoleNode) N).
  { apply Forall_forall. now intros kv [_ H]%elem_of_filter_hasRole. }
  destruct role.
  - exists [], (B ++ M ++ N). split_and!; [reflexivity | constructor | |].
    + apply Forall_forall. intros kv _. simpl. lia.
    + intros kv _ H. simpl in H. lia.
  - exists B, (M ++ N). split_and!; [reflexivity | | |].
    + eapply Forall_impl; [exact HB |]. intros kv ->. simpl. lia.
    + apply Forall_app. split.
      * eapply Forall_impl; [exact HM |]. intros kv ->. simpl. lia.
      * eapply Forall_impl; [exact HN |]. intros kv ->. simpl. lia.
    + intros kv Hkv H. apply elem_of_filter_hasRole. split; [exact Hkv |].
      destruct (api.Role _); simpl in H; [reflexivity | lia | lia].
  - exists (B ++ M), N. split_and!; [now rewrite <- app_assoc | | |].
    + apply Forall_app. split.
      * eapply Forall_impl; [exact HB |]. intros kv ->. simpl. lia.
      * eapply Forall_impl; [exact HM |]. intros kv ->. simpl. lia.
    + eapply Forall_impl; [exact HN |]. intros kv ->. simpl. lia.
    + intros kv Hkv H. apply elem_of_app.
      destruct (api.Role (cloudinstances.InstanceGroup (snd kv))) eqn:E;
        simpl in H; [left | right | lia];
        apply elem_of_filter_hasRole; now split.
Qed.

(** C5.  In any trace of the executor, for any order of the groups in the
    snapshot: take a step on an instance of a group of some type.  Every
    later step is on a group of the same type or of a later one in the
    order bastion, master, node; and every stale instance of every group
    of an earlier type has completed before that step.  So no master is
    touched before all bastions have completed, and no node before all
    masters (and bastions) have. *)
Theorem group_type_order (w : World) (d : instancegroups.RollingUpdateCluster)
    (groups : CloudGroups) (items : list api.InstanceGroup)
    (t1 t2 : list Event) (role : api.InstanceGroupRole) (g i : string)
    (step : Step) :
  trace (instancegroups.RollingUpdate w d groups items)
  = t1 ++ Exec role g i step :: t2 ->
  (forall role' g' i' step',
      Exec role' g' i' step' ∈ t2 -> rank role <= rank role')
  /\ (forall kv m,
        kv ∈ groups ->
        rank (api.Role (cloudinstances.InstanceGroup (snd kv))) < rank role ->
        m ∈ cloudinstances.NeedUpdate (snd kv) ->
        completed w d kv m t1).
Proof.
  unfold instancegroups.RollingUpdate. intros Ht.
  destruct (groups_split_at role groups) as (lo & hi & Hsplit & Hlo & Hhi & Hin).
  rewrite Hsplit in Ht.
  apply forM__skip in Ht as (Hok & t1' & -> & Hrest).
  2: { intros He.
       pose proof (rollGroups_roles w d (fun r => rank r < rank role) lo Hlo)
         as E.
       rewrite Forall_forall in E. specialize (E _ He _ _ _ _ eq_refl).
       simpl in E. lia. }
  split.
  - intros role' g' i' step' He.
    pose proof (rollGroups_roles w d (fun r => rank role <= rank r) hi Hhi)
      as E.
    rewrite Forall_forall in E.
    apply (E (Exec role' g' i' step')) with g' i' step'; [| reflexivity].
    rewrite Hrest. apply elem_of_app. right. now right.
  - intros kv m Hkv Hrank Hm. specialize (Hin kv Hkv Hrank).
    destruct (forM__completed _ _ kv Hok Hin) as (Hgroup & ta & tb & Hta).
    unfold instancegroups.rollGroup in Hgroup, Hta at 2.
    destruct (forM__completed _ _ m Hgroup Hm) as (Hinst & ta' & tb' & Hta').
    split; [exact Hinst |].
    exists (ta ++ ta'), (tb' ++ tb ++ t1').
    rewrite Hta, Hta'. now rewrite <- !app_assoc.
Qed.

(** The groups of the sample cluster come in the order nodes, masters,
    bastions; the executor takes the bastion, then the three masters, then
    the two nodes.  With [CloudOnly] nothing is drained or validated. *)
Example executor_order :
  map (fun e => match e with
                | Exec role _ i Terminate => (rank role, i)
                | _ => (3, "")
                end)
      (List.filter is_termination
         (trace (RunRollingUpdateCluster (healthy stale_cluster)
                   (with_flags true false true [] defaults))))
  = [(0, "b1"); (1, "m1"); (1, "m2"); (1, "m3"); (2, "n1"); (2, "n2")]
  /\ drains (trace (RunRollingUpdateCluster (healthy stale_cluster)
                      (with_flags true false true [] defaults))) = 0
  /\ result (RunRollingUpdateCluster (healthy stale_cluster)
               (with_flags true false true [] defaults)) = inr tt.
Proof. repeat split. Qed.

Lemma group_type_order_witness :
  (forall role' g' i' step',
      Exec role' g' i' step'
        ∈ [Exec api.InstanceGroupRoleMaster "masters" "m1" (Sleep 300000000000%Z);
           Exec api.InstanceGroupRoleNode "nodes" "n1" Terminate;
           Exec api.InstanceGroupRoleNode "nodes" "n1" (Sleep 240000000000%Z)] ->
      rank api.InstanceGroupRoleMaster <= rank role')
  /\ (forall kv m,
        kv ∈ [ group "nodes" api.InstanceGroupRoleNode ["n1"] [];
               group "masters" api.InstanceGroupRoleMaster ["m1"] [];
               group "bastions" api.InstanceGroupRoleBastion ["b1"] [] ] ->
        rank (api.Role (cloudinstances.InstanceGroup (snd kv)))
        < rank api.InstanceGroupRoleMaster ->
        m ∈ cloudinstances.NeedUpdate (snd kv) ->
        completed (healthy [])
          (newRollingUpdateCluster (with_flags true false true [] defaults)
             {| session := {| clientset := clientset_handle 1;
                              cluster := {| api.ClusterObjectName := "k8s.example.com" |};
                              config := config_handle 2 |};
                clusterNodes := {| k8sClient := None; nodes := [] |};
                list_Items := declared;
                targets := {| instanceGroups := [0; 1; 2]; warnUnmatched := true |};
                cloudView := {| cloud := cloud_handle 4; groups := [] |} |})
          kv m
          [Exec api.InstanceGroupRoleBastion "bastions" "b1" Terminate;
           Exec api.InstanceGroupRoleBastion "bastions" "b1" (Sleep 0%Z)]).
Proof.
  apply (group_type_order (healthy []) _ _ declared _ _
           api.InstanceGroupRoleMaster "masters" "m1" Terminate).
  vm_compute. reflexivity.
Defined.

(** ** The intervals handed to the executor *)

(** The literal of lines 352-364 passes the master and node intervals of
    the options, and no bastion interval. *)
Lemma newRollingUpdateCluster_intervals (o : RollingUpdateOptions)
    (s : Snapshot) :
  instancegroups.MasterInterval (newRollingUpdateCluster o s) = MasterInterval o
  /\ instancegroups.NodeInterval (newRollingUpdateCluster o s) = NodeInterval o
  /\ instancegroups.BastionInterval (newRollingUpdateCluster o s) = 0%Z.
Proof. repeat split. Qed.

(** C4.  The claim fails on the code: with the default intervals and
    [--yes --cloudonly], over a cluster with a stale bastion, three stale
    masters and two stale nodes, the options hold a bastion interval of 5
    minutes, the executor is built with a bastion interval of 0, and the
    wait after the termination of the bastion is 0, while masters and
    nodes get the 5 and 4 minutes of the options. *)
Theorem bastion_interval_not_passed :
  BastionInterval (with_flags true false true [] defaults) = 300000000000%Z
  /\ (forall s,
        instancegroups.BastionInterval
          (newRollingUpdateCluster (with_flags true false true [] defaults) s)
        = 0%Z)
  /\ omap (fun e => match e with
                    | Exec role _ i (Sleep d) => Some (role, i, d)
                    | _ => None
                    end)
          (trace (RunRollingUpdateCluster (healthy stale_cluster)
                    (with_flags true false true [] defaults)))
     = [ (api.InstanceGroupRoleBastion, "b1", 0%Z);
         (api.InstanceGroupRoleMaster, "m1", 300000000000%Z);
         (api.InstanceGroupRoleMaster, "m2", 300000000000%Z);
         (api.InstanceGroupRoleMaster, "m3", 300000000000%Z);
         (api.InstanceGroupRoleNode, "n1", 240000000000%Z);
         (api.InstanceGroupRoleNode, "n2", 240000000000%Z) ].
Proof. repeat split. Qed.

(** * More properties of the command *)

(** ** Errors of lines 199-330 *)

Lemma discovery_silent w o :
  Forall (fun e => is_printf e = false) (trace (discovery w o)).
Proof.
  unfold discovery.
  apply Forall_trace_bind; [| intros s _].
  { eapply Forall_impl; [apply loadConfig_events |]. now intros []. }
  apply Forall_trace_bind; [| intros n _].
  { eapply Forall_impl; [apply listNodes_events |]. now intros []. }
  apply Forall_trace_bind; [| intros items _].
  { eapply Forall_impl; [apply listInstanceGroups_events |]. now intros []. }
  apply Forall_trace_bind; [| intros t _].
  { rewrite filterInstanceGroups_silent. constructor. }
  apply Forall_trace_bind; [| intros v _].
  { eapply Forall_impl; [apply getCloudGroups_events |].
    now intros e [-> | ->]. }
  apply Forall_trace_bind; [| intros _ _].
  { rewrite renderTable_events. now repeat constructor. }
  constructor.
Qed.

(** X1.  An error of any step up to and including the printing of the
    table is what the command returns.  Nothing is done after the failed
    step: no message about the rolling update is printed and no instance
    is touched, even when nothing needed an update. *)
Theorem discovery_error_is_returned (w : World) (o : RollingUpdateOptions)
    (t : list Event) (err : error) :
  discovery w o = (t, inl err) ->
  RunRollingUpdateCluster w o = (t, inl err)
  /\ count is_printf t = 0
  /\ count touches_instance t = 0.
Proof.
  intros Hd. split_and!.
  - unfold RunRollingUpdateCluster. now rewrite Hd.
  - apply count_zero. pose proof (discovery_silent w o) as H.
    now rewrite Hd in H.
  - apply count_zero. pose proof (discovery_events w o) as H.
    now rewrite Hd in H.
Qed.

Lemma discovery_error_is_returned_witness :
  exists t,
    RunRollingUpdateCluster (unprintable fresh_cluster) defaults
    = (t, inl (collaborator_error "broken pipe"))
    /\ count is_printf t = 0
    /\ count touches_instance t = 0.
Proof.
  eexists. apply discovery_error_is_returned. vm_compute. reflexivity.
Defined.



(** ** The order of the calls *)

Lemma sublist_StronglySorted_lt (l k : list nat) :
  l `sublist_of` k -> StronglySorted lt k -> StronglySorted lt l.
Proof.
  induction 1 as [| x l k Hs IH | x l k Hs IH]; intros Hk.
  - constructor.
  - apply StronglySorted_inv in Hk as [Hk Hx]. constructor; [now apply IH |].
    rewrite Forall_forall in Hx |- *. intros y Hy. apply Hx.
    eapply elem_of_sublist; eassumption.
  - apply StronglySorted_inv in Hk as [Hk _]. now apply IH.
Qed.

Ltac sublist_steps :=
  cbv [bind call wrap ret fail emit of_err trace result fst snd];
  repeat first [ apply sublist_nil | apply sublist_skip | apply sublist_cons ].

Lemma loadConfig_calls w o :
  omap callNumber (trace (loadConfig w o)) `sublist_of` [0; 1; 2].
Proof.
  unfold loadConfig.
  destruct (Factory_Clientset w) as [e | cs]; [sublist_steps |].
  cbn [bind call fst snd].
  destruct (GetCluster w (ClusterName o)) as [e | c]; [sublist_steps |].
  cbn [bind call fst snd].
  destruct (ClientConfig w (api.ClusterObjectName c)); sublist_steps.
Qed.

Lemma listNodes_calls w o s :
  omap callNumber (trace (listNodes w o s)) `sublist_of` [3; 4].
Proof.
  unfold listNodes. destruct (CloudOnly o); [sublist_steps |].
  destruct (NewForConfig w (config s)) as [e | k]; [sublist_steps |].
  cbn [bind call wrap emit fst snd].
  destruct (Nodes_List w k); sublist_steps.
Qed.

Lemma getCloudGroups_calls w s items t n :
  omap callNumber (trace (getCloudGroups w s items t n)) `sublist_of` [6; 7].
Proof.
  unfold getCloudGroups.
  destruct (BuildCloud w (cluster s)) as [e | c]; [sublist_steps |].
  cbn [bind call fst snd].
  destruct (GetCloudGroups w c _ _ _ _ _); sublist_steps.
Qed.

Lemma calls_bind {A B : Type} (m : Run A) (k : A -> Run B) (l1 l2 : list nat) :
  omap callNumber (trace m) `sublist_of` l1 ->
  (forall a, omap callNumber (trace (k a)) `sublist_of` l2) ->
  omap callNumber (trace (bind m k)) `sublist_of` l1 ++ l2.
Proof.
  intros Hm Hk. rewrite trace_bind, omap_app. apply sublist_app; [exact Hm |].
  destruct (result m); [apply sublist_nil_l | apply Hk].
Qed.

Lemma rollingUpdate_calls w o s :
  omap callNumber (trace (rollingUpdate w o s)) = [].
Proof.
  pose proof (rollingUpdate_events w o s) as E. revert E.
  generalize (trace (rollingUpdate w o s)). intros t E.
  induction E as [| e t He _ IH]; [reflexivity |].
  destruct e; simpl in He; try contradiction; exact IH.
Qed.

(** X3.  The calls a run makes to its collaborators, in the order it
    makes them, are a subsequence of: clientset, cluster, kubecfg
    settings, kube client, node list, instance groups, cloud, cloud
    groups, table.  So each is made at most once, and none before one
    that precedes it in this list. *)
Theorem calls_in_source_order (w : World) (o : RollingUpdateOptions) :
  omap callNumber (trace (RunRollingUpdateCluster w o))
    `sublist_of` [0; 1; 2; 3; 4; 5; 6; 7; 8]
  /\ StronglySorted lt (omap callNumber (trace (RunRollingUpdateCluster w o))).
Proof.
  assert (H : omap callNumber (trace (RunRollingUpdateCluster w o))
                `sublist_of` [0; 1; 2; 3; 4; 5; 6; 7; 8]).
  { unfold RunRollingUpdateCluster.
    change [0; 1; 2; 3; 4; 5; 6; 7; 8]
      with (([0; 1; 2] ++ [3; 4] ++ [5] ++ [] ++ [6; 7] ++ [8] ++ []) ++ []).
    apply calls_bind.
    2: { intros s. rewrite rollingUpdate_calls. constructor. }
    unfold discovery.
    apply calls_bind; [apply loadConfig_calls | intros s].
    apply calls_bind; [apply listNodes_calls | intros n].
    apply calls_bind; [sublist_steps | intros items].
    apply calls_bind; [| intros t].
    { rewrite filterInstanceGroups_silent. constructor. }
    apply calls_bind; [apply getCloudGroups_calls | intros v].
    apply calls_bind; [sublist_steps | intros _].
    constructor. }
  split; [exact H |].
  apply (sublist_StronglySorted_lt _ _ H).
  repeat (constructor; [| repeat constructor; lia]). constructor.
Qed.

(** ** The two gates and the executor *)

(** X4.  A message about the rolling update on the standard output ends
    the run: the command returns nil and has touched no instance.  The
    message is "No rolling-update required." only when [Force] is false,
    and "Must specify --yes to rolling-update." only when [Yes] is
    false. *)
Theorem message_ends_the_run (w : World) (o : RollingUpdateOptions)
    (msg : string) :
  Printf msg ∈ trace (RunRollingUpdateCluster w o) ->
  result (RunRollingUpdateCluster w o) = inr tt
  /\ count touches_instance (trace (RunRollingUpdateCluster w o)) = 0
  /\ (msg = noUpdateRequired /\ Force o = false
      \/ msg = mustSpecifyYes /\ Yes o = false).
Proof.
  unfold RunRollingUpdateCluster.
  intros [H | (s & Hs & H)]%elem_of_trace_bind.
  { pose proof (discovery_silent w o) as E.
    rewrite Forall_forall in E. now apply E in H. }
  rewrite result_bind, trace_bind, Hs, count_app.
  rewrite (count_zero _ (trace (discovery w o))) by apply discovery_events.
  unfold rollingUpdate in *.
  destruct (negb _ && negb (Force o)) eqn:Hgate.
  - apply list_elem_of_singleton in H. injection H as ->.
    apply andb_true_iff in Hgate as [_ Hforce].
    apply negb_true_iff in Hforce. split_and!; [done | done |]. now left.
  - destruct (Yes o) eqn:Hyes; cbn [negb] in *.
    + exfalso.
      apply elem_of_trace_bind in H as [H | (u & _ & H)].
      * destruct (DrainAndValidateRollingUpdate_Enabled w).
        -- apply list_elem_of_singleton in H. discriminate.
        -- now apply not_elem_of_nil in H.
      * pose proof (RollingUpdate_events w (newRollingUpdateCluster o s)
                      (groups (cloudView s)) (list_Items s)) as E.
        rewrite Forall_forall in E. now apply E in H.
    + apply list_elem_of_singleton in H. injection H as ->.
      split_and!; [done | done |]. now right.
Qed.

Lemma message_ends_the_run_witness :
  result (RunRollingUpdateCluster (healthy stale_cluster) defaults) = inr tt
  /\ count touches_instance
       (trace (RunRollingUpdateCluster (healthy stale_cluster) defaults)) = 0
  /\ (mustSpecifyYes = noUpdateRequired /\ Force defaults = false
      \/ mustSpecifyYes = mustSpecifyYes /\ Yes defaults = false).
Proof.
  apply (message_ends_the_run (healthy stale_cluster) defaults mustSpecifyYes).
  vm_compute. do 9 apply list_elem_of_further. apply list_elem_of_here.
Defined.



(** The bastion interval of the options is never read: two runs whose
    options differ in it only have the same trace and return the same. *)
Lemma bastion_interval_is_not_read (w : World) (o : RollingUpdateOptions)
    (d : Duration) :
  RunRollingUpdateCluster w (withBastionInterval d o)
  = RunRollingUpdateCluster w o.
Proof. reflexivity. Qed.

(** ** More on the filter of lines 249-271 *)

Lemma unmatched_of_mapM_None items names :
  mapM (firstNamed items) names = None -> Exists (unmatched items) names.
Proof.
  induction names as [| n names IH]; [discriminate |].
  cbn [mapM]. destruct (firstNamed items n) as [p |] eqn:En; simpl.
  - destruct (mapM (firstNamed items) names); [discriminate |].
    intros _. apply Exists_cons_tl. now apply IH.
  - intros _. apply Exists_cons_hd. now apply firstNamed_None.
Qed.

Lemma filterLoop_images items names found :
  filterLoop items (addresses items) names [] = inr found ->
  Forall2 (fun n p => firstNamed items n = Some p) names found.
Proof.
  intros Hloop. apply mapM_Some.
  destruct (mapM (firstNamed items) names) as [ps |] eqn:E.
  - rewrite (filterLoop_found _ _ [] _ E) in Hloop. simpl in Hloop. congruence.
  - exfalso. pose proof (unmatched_of_mapM_None _ _ E) as Hex.
    destruct (filterLoop_not_found items names [] Hex)
      as (? & ? & ? & _ & _ & _ & Hr).
    congruence.
Qed.

(** X7.  With a filter, the names of the targeted groups, read through
    the pointers, are the requested names, in request order. *)
Theorem filter_returns_the_requested_names (o : RollingUpdateOptions)
    (items : list api.InstanceGroup) (t : Targets) :
  InstanceGroups o <> [] ->
  result (filterInstanceGroups o items) = inr t ->
  (fun p => api.Name <$> items !! p) <$> instanceGroups t
  = Some <$> InstanceGroups o.
Proof.
  intros Hne. unfold filterInstanceGroups. rewrite decide_True.
  2: { destruct (InstanceGroups o); [done | simpl; lia]. }
  destruct (filterLoop _ _ _ _) as [e | found] eqn:Hloop; [discriminate |].
  simpl. intros [= <-]. simpl.
  apply filterLoop_images in Hloop. clear Hne.
  induction Hloop as [| n p names found Hn _ IH]; [reflexivity |].
  cbn [fmap list_fmap]. f_equal; [| exact IH].
  apply firstNamed_Some in Hn as (ig & -> & <- & _). reflexivity.
Qed.

Lemma filter_returns_the_requested_names_witness :
  (fun p => api.Name <$> declared !! p) <$> [1; 2; 1]
  = Some <$> ["masters"; "bastions"; "masters"].
Proof.
  apply (filter_returns_the_requested_names
           (with_flags true false false ["masters"; "bastions"; "masters"]
              defaults)
           declared {| instanceGroups := [1; 2; 1]; warnUnmatched := false |}).
  - simpl. discriminate.
  - reflexivity.
Defined.

(** X8.  Every pointer of the target list points into [list.Items]: none
    is nil or dangling, with or without a filter. *)
Theorem targets_point_into_the_list (o : RollingUpdateOptions)
    (items : list api.InstanceGroup) (t : Targets) :
  result (filterInstanceGroups o items) = inr t ->
  Forall (fun p => is_Some (items !! p)) (instanceGroups t).
Proof.
  unfold filterInstanceGroups. destruct (decide _) as [Hne | Hz].
  - destruct (filterLoop _ _ _ _) as [e | found] eqn:Hloop; [discriminate |].
    simpl. intros [= <-]. simpl. apply filterLoop_images in Hloop.
    clear Hne.
    induction Hloop as [| n p names found Hn _ IH]; [apply Forall_nil_2 |].
    apply Forall_cons_2; [| exact IH].
    apply firstNamed_Some in Hn as (ig & -> & _). eauto.
  - simpl. intros [= <-]. simpl. unfold addresses.
    apply Forall_forall. intros p Hp%elem_of_seq.
    apply lookup_lt_is_Some. lia.
Qed.

Lemma targets_point_into_the_list_witness :
  Forall (fun p => is_Some (declared !! p)) [0; 1; 2].
Proof.
  apply (targets_point_into_the_list defaults declared
           {| instanceGroups := [0; 1; 2]; warnUnmatched := true |}).
  reflexivity.
Defined.

(** X9.  Without a filter every declared instance group is targeted,
    once, in the order of [list.Items], and the warning about unmatched
    cloud groups is on. *)
Theorem no_filter_targets_every_group (o : RollingUpdateOptions)
    (items : list api.InstanceGroup) :
  InstanceGroups o = [] ->
  exists found,
    filterInstanceGroups o items
    = ([], inr {| instanceGroups := found; warnUnmatched := true |})
    /\ length found = length items
    /\ NoDup found
    /\ (forall i, is_Some (items !! i) <-> found !! i = Some i).
Proof.
  intros Hnone. exists (addresses items). unfold filterInstanceGroups.
  rewrite Hnone. simpl. unfold addresses. split_and!.
  - reflexivity.
  - apply length_seq.
  - apply NoDup_seq.
  - intros i. rewrite lookup_lt_is_Some. split.
    + intros Hi. now apply lookup_seq_lt.
    + intros Hi%lookup_seq. lia.
Qed.

Lemma no_filter_targets_every_group_witness :
  exists found,
    filterInstanceGroups defaults declared
    = ([], inr {| instanceGroups := found; warnUnmatched := true |})
    /\ length found = length declared
    /\ NoDup found
    /\ (forall i, is_Some (declared !! i) <-> found !! i = Some i).
Proof. apply (no_filter_targets_every_group defaults declared). reflexivity. Defined.

(** X10.  The filter fails exactly when some requested name is borne by
    no declared group, and then with "InstanceGroup <name> not found" for
    such a name; no other error comes out of it. *)
Theorem filter_fails_iff_unmatched (o : RollingUpdateOptions)
    (items : list api.InstanceGroup) :
  (forall err,
      result (filterInstanceGroups o items) = inl err ->
      exists name,
        err = InstanceGroup_not_found name
        /\ name ∈ InstanceGroups o /\ unmatched items name)
  /\ ((exists err, result (filterInstanceGroups o items) = inl err)
      <-> Exists (unmatched items) (InstanceGroups o)).
Proof.
  assert (Hfail : forall err,
             result (filterInstanceGroups o items) = inl err ->
             exists name,
               err = InstanceGroup_not_found name
               /\ name ∈ InstanceGroups o /\ unmatched items name).
  { intros err. unfold filterInstanceGroups.
    destruct (decide _) as [Hne | Hz]; [| discriminate].
    destruct (filterLoop _ _ _ _) as [e | found] eqn:Hloop; [| discriminate].
    simpl. intros [= <-].
    destruct (mapM (firstNamed items) (InstanceGroups o)) as [ps |] eqn:E.
    { rewrite (filterLoop_found _ _ [] _ E) in Hloop. discriminate. }
    pose proof (unmatched_of_mapM_None _ _ E) as Hex.
    destruct (filterLoop_not_found items _ [] Hex)
      as (pre & name & post & Hnames & _ & Hun & Hr).
    exists name. split_and!; [congruence | | exact Hun].
    rewrite Hnames. apply elem_of_app. right. left. }
  split; [exact Hfail |]. split.
  - intros [err (name & _ & Hin & Hun)%Hfail].
    apply Exists_exists. eauto.
  - intros Hex.
    destruct (filterInstanceGroups_not_found o items Hex)
      as (_ & name & _ & _ & _ & _ & ->).
    eauto.
Qed.

(** ** The table *)

Lemma strconv_Itoa_inj (i j : Z) : strconv_Itoa i = strconv_Itoa j -> i = j.
Proof. unfold strconv_Itoa. apply (inj pretty). Qed.

Lemma column_NEEDUPDATE_zero (r : cloudinstances.CloudInstanceGroup) :
  column_NEEDUPDATE r = "0" <-> cloudinstances.NeedUpdate r = [].
Proof.
  unfold column_NEEDUPDATE, len. split.
  - intros H. apply (strconv_Itoa_inj _ 0%Z) in H.
    destruct (cloudinstances.NeedUpdate r); [reflexivity | simpl in H; lia].
  - now intros ->.
Qed.

(** X11.  The table and the first gate agree: with [Force] false, "No
    rolling-update required." is printed exactly when the NEEDUPDATE cell
    of every row of the table is "0". *)
Theorem table_agrees_with_gate (w : World) (o : RollingUpdateOptions)
    (t : list Event) (s : Snapshot) :
  discovery w o = (t, inr s) ->
  Force o = false ->
  (Forall (fun r => column_NEEDUPDATE r = "0")
          (map snd (groups (cloudView s)))
   <-> Printf noUpdateRequired ∈ trace (RunRollingUpdateCluster w o)).
Proof.
  intros Hd Hforce.
  assert (Hcells : Forall (fun r => column_NEEDUPDATE r = "0")
                          (map snd (groups (cloudView s)))
                   <-> needUpdateLoop (groups (cloudView s)) false = false).
  { rewrite needUpdateLoop_false, Forall_fmap. apply Forall_proper; [| done].
    intros kv. apply column_NEEDUPDATE_zero. }
  rewrite Hcells. unfold RunRollingUpdateCluster.
  rewrite (bind_ok _ _ _ _ Hd). cbn [trace fst]. rewrite elem_of_app.
  unfold rollingUpdate. rewrite Hforce. cbn [negb]. rewrite andb_true_r.
  destruct (needUpdateLoop (groups (cloudView s)) false); cbn [negb].
  - split; [discriminate |]. intros [H | H]; exfalso.
    + pose proof (discovery_silent w o) as E. rewrite Hd in E.
      rewrite Forall_forall in E. now apply E in H.
    + destruct (Yes o); cbn [negb] in H.
      * apply elem_of_trace_bind in H as [H | (u & _ & H)].
        -- destruct (DrainAndValidateRollingUpdate_Enabled w).
           ++ apply list_elem_of_singleton in H. discriminate.
           ++ now apply not_elem_of_nil in H.
        -- pose proof (RollingUpdate_events w (newRollingUpdateCluster o s)
                         (groups (cloudView s)) (list_Items s)) as E.
           rewrite Forall_forall in E. now apply E in H.
      * apply list_elem_of_singleton in H. discriminate.
  - split; [| reflexivity]. intros _. right. apply list_elem_of_here.
Qed.

Lemma table_agrees_with_gate_witness :
  Forall (fun r => column_NEEDUPDATE r = "0") (map snd fresh_cluster)
  <-> Printf noUpdateRequired
        ∈ trace (RunRollingUpdateCluster (healthy fresh_cluster) defaults).
Proof.
  refine (table_agrees_with_gate (healthy fresh_cluster) defaults _
            {| session := {| clientset := clientset_handle 1;
                             cluster := {| api.ClusterObjectName := "k8s.example.com" |};
                             config := config_handle 2 |};
               clusterNodes := {| k8sClient := Some (k8s_handle 3);
                                  nodes := [ {| v1.NodeName := "ip-10-0-0-1" |} ] |};
               list_Items := declared;
               targets := {| instanceGroups := [0; 1; 2]; warnUnmatched := true |};
               cloudView := {| cloud := cloud_handle 4; groups := fresh_cluster |} |}
            _ _).
  - vm_compute. reflexivity.
  - reflexivity.
Defined.

Lemma appendNodes_omap members nodes :
  appendNodes members nodes = nodes ++ omap cloudinstances.Node members.
Proof.
  revert nodes. induction members as [| i members IH]; intros nodes; simpl.
  - now rewrite app_nil_r.
  - rewrite IH. destruct (cloudinstances.Node i); [| reflexivity].
    now rewrite <- app_assoc.
Qed.

Lemma length_omap_le {A B : Type} (f : A -> option B) (l : list A) :
  length (omap f l) <= length l
  /\ (length (omap f l) = length l <-> Forall (fun x => is_Some (f x)) l).
Proof.
  induction l as [| x l [IHle IHeq]].
  - split; [reflexivity |]. split; [constructor | reflexivity].
  - change (omap f (x :: l))
      with (match f x with Some y => y :: omap f l | None => omap f l end).
    rewrite Forall_cons, <- IHeq.
    destruct (f x) as [y |] eqn:E; cbn [length].
    + split; [lia |]. split.
      * intros H. split; [eauto | lia].
      * intros [_ H]. lia.
    + split; [lia |]. split; [lia |].
      intros [[? H] _]. discriminate.
Qed.

(** X12.  The NODES cell is the number of instances of the group that are
    linked to a node, those of [Ready] and those of [NeedUpdate].  It is
    the sum of the READY and NEEDUPDATE cells exactly when every instance
    of the group has joined the cluster, and never more. *)
Theorem NODES_counts_joined_instances (r : cloudinstances.CloudInstanceGroup) :
  column_NODES r
  = strconv_Itoa
      (len (omap cloudinstances.Node
              (cloudinstances.Ready r ++ cloudinstances.NeedUpdate r)))
  /\ (len (omap cloudinstances.Node
             (cloudinstances.Ready r ++ cloudinstances.NeedUpdate r))
      <= len (cloudinstances.Ready r) + len (cloudinstances.NeedUpdate r))%Z
  /\ (column_NODES r
      = strconv_Itoa (len (cloudinstances.Ready r)
                      + len (cloudinstances.NeedUpdate r))
      <-> Forall (fun i => is_Some (cloudinstances.Node i))
                 (cloudinstances.Ready r ++ cloudinstances.NeedUpdate r)).
Proof.
  assert (Hcell : column_NODES r
                  = strconv_Itoa
                      (len (omap cloudinstances.Node
                              (cloudinstances.Ready r
                                 ++ cloudinstances.NeedUpdate r)))).
  { unfold column_NODES. rewrite !appendNodes_omap. simpl.
    now rewrite omap_app. }
  destruct (length_omap_le cloudinstances.Node
              (cloudinstances.Ready r ++ cloudinstances.NeedUpdate r))
    as [Hle Heq].
  rewrite length_app in Hle, Heq. split_and!.
  - exact Hcell.
  - unfold len. lia.
  - rewrite Hcell, <- Heq. unfold len. split.
    + intros H%strconv_Itoa_inj. lia.
    + intros H. f_equal. lia.
Qed.

(** X13.  Whenever the table is printed, its rows are the groups the
    cloud reported, one row a group; its columns are NAME, STATUS,
    NEEDUPDATE, READY, MIN and MAX, followed by NODES exactly when
    [CloudOnly] is false; and every column asked for was added to the
    table. *)
Theorem table_request (w : World) (o : RollingUpdateOptions)
    (rows : list cloudinstances.CloudInstanceGroup) (cols : list string) :
  Call_Render rows cols ∈ trace (RunRollingUpdateCluster w o) ->
  cols = ["NAME"; "STATUS"; "NEEDUPDATE"; "READY"; "MIN"; "MAX"]
           ++ (if CloudOnly o then [] else ["NODES"])
  /\ Forall (fun c => c ∈ map fst tableColumns) cols
  /\ exists c cl items igs warn ns gs,
       Call_GetCloudGroups igs warn ns ∈ trace (RunRollingUpdateCluster w o)
       /\ GetCloudGroups w c cl items igs warn ns = inr gs
       /\ rows = map snd gs.
Proof.
  intros Hin. pose proof Hin as H. unfold RunRollingUpdateCluster in H.
  apply elem_of_trace_bind in H as [H | (s0 & _ & H)].
  2: { pose proof (rollingUpdate_events w o s0) as E.
       rewrite Forall_forall in E. now apply E in H. }
  unfold discovery in H.
  apply elem_of_trace_bind in H as [H | (s & Hs & H)].
  { pose proof (loadConfig_events w o) as E.
    rewrite Forall_forall in E. now apply E in H. }
  apply elem_of_trace_bind in H as [H | (n & Hn & H)].
  { pose proof (listNodes_events w o s) as E.
    rewrite Forall_forall in E. now apply E in H. }
  apply elem_of_trace_bind in H as [H | (items & Hitems & H)].
  { pose proof (listInstanceGroups_events w s) as E.
    rewrite Forall_forall in E. now apply E in H. }
  apply elem_of_trace_bind in H as [H | (tg & Ht & H)].
  { rewrite filterInstanceGroups_silent in H. now apply not_elem_of_nil in H. }
  apply elem_of_trace_bind in H as [H | (v & Hv & H)].
  { pose proof (getCloudGroups_events w s items tg n) as E.
    rewrite Forall_forall in E. now apply E in H as [H | H]. }
  apply elem_of_trace_bind in H as [H | (u & _ & H)].
  2: { now apply not_elem_of_nil in H. }
  rewrite renderTable_events in H. apply list_elem_of_singleton in H.
  injection H as -> ->. split_and!.
  - reflexivity.
  - unfold columns, tableColumns.
    destruct (CloudOnly o); repeat (apply Forall_cons; split);
      try apply Forall_nil_2; simpl;
      repeat first [ apply list_elem_of_here | apply list_elem_of_further ].
  - unfold getCloudGroups in Hv.
    destruct (BuildCloud w (cluster s)) as [e | c] eqn:Hb; [discriminate |].
    cbn [bind call fst snd result] in Hv.
    destruct (GetCloudGroups w c (cluster s) items (instanceGroups tg)
                (warnUnmatched tg) (nodes n)) as [e | gs] eqn:Hg;
      [discriminate |].
    cbn [ret snd] in Hv. injection Hv as <-.
    exists c, (cluster s), items, (instanceGroups tg), (warnUnmatched tg),
      (nodes n), gs.
    split_and!; [| exact Hg | reflexivity].
    unfold RunRollingUpdateCluster, discovery.
    rewrite trace_bind, elem_of_app. left.
    rewrite trace_bind, elem_of_app, Hs. right.
    rewrite trace_bind, elem_of_app, Hn. right.
    rewrite trace_bind, elem_of_app, Hitems. right.
    rewrite trace_bind, elem_of_app, Ht. right.
    rewrite trace_bind, elem_of_app. left.
    unfold getCloudGroups. rewrite Hb. cbn [bind call fst snd trace].
    rewrite Hg. cbn [fst app].
    apply list_elem_of_further, list_elem_of_here.
Qed.

Lemma table_request_witness :
  columns (with_flags false false true [] defaults)
  = ["NAME"; "STATUS"; "NEEDUPDATE"; "READY"; "MIN"; "MAX"]
      ++ (if CloudOnly (with_flags false false true [] defaults)
          then [] else ["NODES"])
  /\ Forall (fun c => c ∈ map fst tableColumns)
            (columns (with_flags false false true [] defaults))
  /\ exists c cl items igs warn ns gs,
       Call_GetCloudGroups igs warn ns
         ∈ trace (RunRollingUpdateCluster (healthy fresh_cluster)
                    (with_flags false false true [] defaults))
       /\ GetCloudGroups (healthy fresh_cluster) c cl items igs warn ns
          = inr gs
       /\ map snd fresh_cluster = map snd gs.
Proof.
  apply (table_request (healthy fresh_cluster)
           (with_flags false false true [] defaults)).
  vm_compute. do 6 apply list_elem_of_further. apply list_elem_of_here.
Defined.

(** ** The command and its flags *)

(** X14.  After the registration of the flags, before any command line is
    read, the options are those of [InitDefaults], except that
    [FailOnDrainError] is true when the drain-and-validate feature flag
    is on: the default given to the flag overwrites the one of
    [InitDefaults].  The flags are the seven of lines 157-164, and the
    two of lines 167-168 when the feature flag is on, each under a name
    of its own. *)
Theorem registration_defaults (enabled : bool) :
  options (NewCmdRollingUpdateCluster enabled)
  = storeBool F_FailOnDrainError enabled
      (InitDefaults RollingUpdateOptions_zero)
  /\ map fst (flags (NewCmdRollingUpdateCluster enabled))
     = ["yes"; "force"; "cloudonly"; "master-interval"; "node-interval";
        "bastion-interval"; "instance-group"]
         ++ (if enabled
             then ["fail-on-drain-error"; "fail-on-validate-error"]
             else [])
  /\ NoDup (map fst (flags (NewCmdRollingUpdateCluster enabled))).
Proof.
  destruct enabled; (split_and!; [reflexivity | reflexivity |]);
    apply (bool_decide_unpack _); vm_compute; exact I.
Qed.

(** What the flags cannot reach. *)
Lemma setFlag_invariant (enabled : bool) (cmd cmd' : Command)
    (name : string) (v : FlagValue) :
  flags cmd = flags (NewCmdRollingUpdateCluster enabled) ->
  setFlag cmd name v = Some cmd' ->
  flags cmd' = flags cmd
  /\ DrainInterval (options cmd') = DrainInterval (options cmd)
  /\ ClusterName (options cmd') = ClusterName (options cmd)
  /\ (enabled = false ->
      FailOnDrainError (options cmd') = FailOnDrainError (options cmd)
      /\ FailOnValidate (options cmd') = FailOnValidate (options cmd)).
Proof.
  intros Hflags. unfold setFlag. rewrite Hflags.
  destruct enabled; cbn [NewCmdRollingUpdateCluster BoolVar DurationVar
    StringSliceVar flags app list_find fst snd];
    repeat (case_decide; cbn [fmap option_fmap option_map prod_map snd fst]);
    try discriminate;
    destruct v; try discriminate; intros [= <-]; cbn [flags options];
    (split_and!; [reflexivity | reflexivity | reflexivity |]);
    intros; try discriminate; split; reflexivity.
Qed.

(** X15.  Whatever flags are given on the command line, the drain
    interval stays at 90 seconds and the cluster name stays empty until
    [cmd.Run] sets it: no flag writes to them.  With the drain-and-validate
    feature flag off, [FailOnDrainError] stays false and [FailOnValidate]
    stays true as well. *)
Theorem flags_cannot_reach (enabled : bool)
    (given : list (string * FlagValue)) (cmd' : Command) :
  setFlags (NewCmdRollingUpdateCluster enabled) given = Some cmd' ->
  DrainInterval (options cmd') = 90000000000%Z
  /\ ClusterName (options cmd') = ""
  /\ (enabled = false ->
      FailOnDrainError (options cmd') = false
      /\ FailOnValidate (options cmd') = true).
Proof.
  assert (Hgen : forall cmd,
             flags cmd = flags (NewCmdRollingUpdateCluster enabled) ->
             setFlags cmd given = Some cmd' ->
             DrainInterval (options cmd') = DrainInterval (options cmd)
             /\ ClusterName (options cmd') = ClusterName (options cmd)
             /\ (enabled = false ->
                 FailOnDrainError (options cmd') = FailOnDrainError (options cmd)
                 /\ FailOnValidate (options cmd') = FailOnValidate (options cmd))).
  { induction given as [| [name v] given IH]; intros cmd Hflags.
    - intros [= <-]. now repeat split.
    - cbn [setFlags]. destruct (setFlag cmd name v) as [cmd1 |] eqn:E;
        [| discriminate].
      destruct (setFlag_invariant enabled _ _ _ _ Hflags E)
        as (Hf & Hd & Hc & Hb).
      intros Hrest. destruct (IH cmd1) as (Hd' & Hc' & Hb'); [congruence | exact Hrest |].
      split_and!; [congruence | congruence |].
      intros He. destruct (Hb He), (Hb' He). split; congruence. }
  intros H. destruct (Hgen _ eq_refl H) as (Hd & Hc & Hb).
  rewrite Hd, Hc. split_and!.
  - now destruct enabled.
  - now destruct enabled.
  - intros ->. destruct (Hb eq_refl) as [-> ->]. now split.
Qed.

Lemma flags_cannot_reach_witness :
  exists cmd',
    setFlags (NewCmdRollingUpdateCluster false)
      [("yes", BoolValue true); ("node-interval", DurationValue (8 * Minute)%Z);
       ("instance-group", StringSliceValue ["nodes"])]
    = Some cmd'
    /\ Yes (options cmd') = true
    /\ NodeInterval (options cmd') = 480000000000%Z
    /\ InstanceGroups (options cmd') = ["nodes"]
    /\ DrainInterval (options cmd') = 90000000000%Z
    /\ ClusterName (options cmd') = ""
    /\ (false = false ->
        FailOnDrainError (options cmd') = false
        /\ FailOnValidate (options cmd') = true).
Proof.
  eexists. split; [vm_compute; reflexivity |].
  split; [reflexivity |]. split; [reflexivity |]. split; [reflexivity |].
  eapply (flags_cannot_reach false
            [("yes", BoolValue true);
             ("node-interval", DurationValue (8 * Minute)%Z);
             ("instance-group", StringSliceValue ["nodes"])]).
  vm_compute. reflexivity.
Defined.

(** X16.  The flag --bastion-interval changes nothing of what the command
    does: with or without it, [cmd.Run] makes the same calls, prints the
    same, and exits the same. *)
Theorem bastion_interval_flag_has_no_effect (enabled : bool) (w : World)
    (rootCommand : RootCommand) (args : list string) (cmd cmd' : Command)
    (d : Duration) :
  flags cmd = flags (NewCmdRollingUpdateCluster enabled) ->
  setFlag cmd "bastion-interval" (DurationValue d) = Some cmd' ->
  cmd_Run w rootCommand (options cmd') args
  = cmd_Run w rootCommand (options cmd) args.
Proof.
  intros Hflags. unfold setFlag. rewrite Hflags.
  assert (snd <$> list_find (fun kv : string * Pointer => fst kv = "bastion-interval")
                    (flags (NewCmdRollingUpdateCluster enabled))
          = Some ("bastion-interval", DurationPtr F_BastionInterval)) as ->.
  { now destruct enabled. }
  intros [= <-]. reflexivity.
Qed.

Lemma bastion_interval_flag_has_no_effect_witness :
  cmd_Run (healthy stale_cluster) (sample_root "k8s.example.com")
    (options {| flags := flags (NewCmdRollingUpdateCluster true);
                options := storeDuration F_BastionInterval (1 * Second)%Z
                             (options (NewCmdRollingUpdateCluster true)) |})
    []
  = cmd_Run (healthy stale_cluster) (sample_root "k8s.example.com")
      (options (NewCmdRollingUpdateCluster true)) [].
Proof.
  apply (bastion_interval_flag_has_no_effect true (healthy stale_cluster)
           (sample_root "k8s.example.com") []
           (NewCmdRollingUpdateCluster true) _ (1 * Second)%Z).
  - reflexivity.
  - reflexivity.
Defined.

(** ** cmd.Run *)

Lemma GetCluster_call_name w o name :
  Call_GetCluster name ∈ trace (RunRollingUpdateCluster w o) ->
  name = ClusterName o.
Proof.
  unfold RunRollingUpdateCluster.
  intros [H | (s0 & _ & H)]%elem_of_trace_bind.
  2: { pose proof (rollingUpdate_events w o s0) as E.
       rewrite Forall_forall in E. now apply E in H. }
  unfold discovery in H.
  apply elem_of_trace_bind in H as [H | (s & Hs & H)].
  { unfold loadConfig in H.
    destruct (Factory_Clientset w) as [e | cs];
      cbn [bind call fst snd trace] in H.
    { apply list_elem_of_singleton in H. discriminate. }
    apply elem_of_cons in H as [H | H]; [discriminate |].
    destruct (GetCluster w (ClusterName o)) as [e | c];
      cbn [bind call fst snd trace] in H.
    { apply list_elem_of_singleton in H. now injection H. }
    apply elem_of_cons in H as [H | H]; [now injection H |].
    destruct (wrap _ _); cbn [bind call fst snd trace ret app] in H;
      apply list_elem_of_singleton in H; discriminate. }
  exfalso.
  apply elem_of_trace_bind in H as [H | (n & Hn & H)].
  { pose proof (listNodes_events w o s) as E.
    rewrite Forall_forall in E. now apply E in H. }
  apply elem_of_trace_bind in H as [H | (items & Hitems & H)].
  { pose proof (listInstanceGroups_events w s) as E.
    rewrite Forall_forall in E. now apply E in H. }
  apply elem_of_trace_bind in H as [H | (tg & Ht & H)].
  { rewrite filterInstanceGroups_silent in H. now apply not_elem_of_nil in H. }
  apply elem_of_trace_bind in H as [H | (v & Hv & H)].
  { pose proof (getCloudGroups_events w s items tg n) as E.
    rewrite Forall_forall in E. now apply E in H as [H | H]. }
  apply elem_of_trace_bind in H as [H | (u & _ & H)].
  { rewrite renderTable_events in H.
    apply list_elem_of_singleton in H. discriminate. }
  now apply not_elem_of_nil in H.
Qed.

(** X17.  [cmd.Run] contacts no collaborator of the rolling update unless
    the arguments were accepted and the cluster name is not empty, and
    the cluster it then looks up is the one [rootCommand] names, whatever
    the options held. *)
Theorem cmd_Run_looks_up_the_named_cluster (w : World)
    (rootCommand : RootCommand) (o : RollingUpdateOptions)
    (args : list string) (e : Event) :
  Ran e ∈ cmd_Run w rootCommand o args ->
  ProcessArgs rootCommand args = None
  /\ RootClusterName rootCommand args <> ""
  /\ (forall name, e = Call_GetCluster name ->
                   name = RootClusterName rootCommand args).
Proof.
  unfold cmd_Run. intros H.
  apply elem_of_cons in H as [H | H]; [discriminate |].
  destruct (ProcessArgs rootCommand args) as [err |].
  { apply list_elem_of_singleton in H. discriminate. }
  apply elem_of_cons in H as [H | H]; [discriminate |].
  destruct (decide (RootClusterName rootCommand args = "")) as [Hname | Hname].
  { apply list_elem_of_singleton in H. discriminate. }
  split_and!; [reflexivity | exact Hname |].
  intros name ->. apply elem_of_app in H as [H | H].
  - apply list_elem_of_fmap in H as (e' & [= <-] & H).
    now apply GetCluster_call_name in H.
  - destruct (result _); [| now apply not_elem_of_nil in H].
    apply list_elem_of_singleton in H. discriminate.
Qed.

Lemma cmd_Run_looks_up_the_named_cluster_witness :
  ProcessArgs (sample_root "k8s.example.com") [] = None
  /\ RootClusterName (sample_root "k8s.example.com") [] <> ""
  /\ (forall name, Call_GetCluster "k8s.example.com" = Call_GetCluster name ->
                   name = RootClusterName (sample_root "k8s.example.com") []).
Proof.
  apply (cmd_Run_looks_up_the_named_cluster (healthy fresh_cluster)
           (sample_root "k8s.example.com")
           (storeClusterName "other.example.com"
              (options (NewCmdRollingUpdateCluster false)))
           [] (Call_GetCluster "k8s.example.com")).
  vm_compute. do 3 apply list_elem_of_further. apply list_elem_of_here.
Defined.

(** X18.  [cmd.Run] calls [exitWithError] exactly when the arguments are
    rejected, the cluster name is empty, or the rolling update returns an
    error; the call is then the last thing it does, and its error is
    "--name is required" exactly in the second case. *)
Theorem cmd_Run_exits (w : World) (rootCommand : RootCommand)
    (o : RollingUpdateOptions) (args : list string) :
  ((exists err, exitWithError err ∈ cmd_Run w rootCommand o args)
   <-> (is_Some (ProcessArgs rootCommand args)
        \/ RootClusterName rootCommand args = ""
        \/ exists e,
             result (RunRollingUpdateCluster w
                       (storeClusterName (RootClusterName rootCommand args) o))
             = inl e))
  /\ (forall err,
        exitWithError err ∈ cmd_Run w rootCommand o args ->
        last (cmd_Run w rootCommand o args) = Some (exitWithError err)
        /\ (err = name_is_required
            <-> ProcessArgs rootCommand args = None
                /\ RootClusterName rootCommand args = "")).
Proof.
  unfold cmd_Run.
  destruct (ProcessArgs rootCommand args) as [perr |].
  { split.
    - split; [intros _; left; eauto |]. intros _. exists (returned perr).
      apply list_elem_of_further, list_elem_of_here.
    - intros err H. apply elem_of_cons in H as [H | H]; [discriminate |].
      apply list_elem_of_singleton in H. injection H as ->.
      split; [reflexivity |]. split; [discriminate | now intros [? _]]. }
  destruct (decide (RootClusterName rootCommand args = "")) as [Hname | Hname].
  { split.
    - split; [intros _; right; now left |]. intros _. exists name_is_required.
      do 2 apply list_elem_of_further. apply list_elem_of_here.
    - intros err H. apply elem_of_cons in H as [H | H]; [discriminate |].
      apply elem_of_cons in H as [H | H]; [discriminate |].
      apply list_elem_of_singleton in H. injection H as ->.
      split; [reflexivity |]. now split. }
  set (r := RunRollingUpdateCluster w
              (storeClusterName (RootClusterName rootCommand args) o)).
  cbn zeta.
  assert (Hran : forall err, exitWithError err ∉ map Ran (trace r)).
  { intros err (e & H & _)%list_elem_of_fmap. discriminate. }
  destruct (result r) as [e | []] eqn:Hr.
  - split.
    + split; [intros _; right; right; eauto |]. intros _.
      exists (returned e). do 2 apply list_elem_of_further.
      apply elem_of_app. right. apply list_elem_of_here.
    + intros err H. apply elem_of_cons in H as [H | H]; [discriminate |].
      apply elem_of_cons in H as [H | H]; [discriminate |].
      apply elem_of_app in H as [H | H]; [now apply Hran in H |].
      apply list_elem_of_singleton in H. injection H as ->. split.
      * rewrite !app_comm_cons. apply last_snoc.
      * split; [discriminate |]. now intros [_ ?].
  - rewrite app_nil_r. split.
    + split.
      * intros [err H]. exfalso.
        apply elem_of_cons in H as [H | H]; [discriminate |].
        apply elem_of_cons in H as [H | H]; [discriminate |].
        now apply Hran in H.
      * intros [[? H] | [H | [e H]]]; [discriminate | contradiction | discriminate].
    + intros err H. exfalso.
      apply elem_of_cons in H as [H | H]; [discriminate |].
      apply elem_of_cons in H as [H | H]; [discriminate |].
      now apply Hran in H.
Qed.

(** ** More on the blocks of lines 199-337 *)

(** X6.  [needUpdate] is true exactly when some group has a stale
    instance, so it does not depend on the order in which [range] visits
    the map of groups. *)
Theorem needUpdate_ignores_the_iteration_order (gs gs' : CloudGroups) :
  gs ≡ₚ gs' ->
  needUpdateLoop gs false = needUpdateLoop gs' false
  /\ (needUpdateLoop gs false = true
      <-> Exists (fun kv => cloudinstances.NeedUpdate (snd kv) <> []) gs).
Proof.
  intros Hp. split; [now apply needUpdateLoop_Permutation |]. split.
  - intros Htrue. apply not_Forall_Exists.
    + intros kv. destruct (cloudinstances.NeedUpdate (snd kv));
        [left; reflexivity | right; discriminate].
    + intros Hall. apply needUpdateLoop_false in Hall. congruence.
  - apply needUpdateLoop_stale.
Qed.

Lemma needUpdate_ignores_the_iteration_order_witness :
  needUpdateLoop stale_cluster false
  = needUpdateLoop (reverse stale_cluster) false
  /\ (needUpdateLoop stale_cluster false = true
      <-> Exists (fun kv => cloudinstances.NeedUpdate (snd kv) <> [])
                 stale_cluster).
Proof.
  apply needUpdate_ignores_the_iteration_order.
  symmetry. apply reverse_Permutation.
Defined.

(** X19.  When the kubecfg settings cannot be loaded, the command returns
    "cannot load kubecfg settings for <name>: <err>", where the name is
    the one of the cluster object, and stops: it has called the clientset,
    the cluster and the settings, and nothing else. *)
Theorem kubecfg_error (w : World) (o : RollingUpdateOptions)
    (cs : simple_Clientset) (c : api.Cluster) (err : error) :
  Factory_Clientset w = inr cs ->
  GetCluster w (ClusterName o) = inr c ->
  ClientConfig w (api.ClusterObjectName c) = inl err ->
  RunRollingUpdateCluster w o
  = ([Call_Clientset; Call_GetCluster (ClusterName o);
      Call_ClientConfig (api.ClusterObjectName c)],
     inl (cannot_load_kubecfg_settings (api.ClusterObjectName c) err)).
Proof.
  intros H1 H2 H3. unfold RunRollingUpdateCluster, discovery, loadConfig.
  rewrite H1. cbn [bind call fst snd]. rewrite H2. cbn [bind call fst snd].
  rewrite H3. reflexivity.
Qed.

Lemma kubecfg_error_witness :
  RunRollingUpdateCluster
    {| Factory_Clientset := inr (clientset_handle 1);
       GetCluster := fun _ => inr {| api.ClusterObjectName := "prod" |};
       ClientConfig := fun _ => inl (collaborator_error "no such context");
       NewForConfig := NewForConfig (healthy []);
       Nodes_List := Nodes_List (healthy []);
       InstanceGroups_List := InstanceGroups_List (healthy []);
       BuildCloud := BuildCloud (healthy []);
       GetCloudGroups := GetCloudGroups (healthy []);
       Table_Render := Table_Render (healthy []);
       DrainAndValidateRollingUpdate_Enabled := false;
       DrainNode := DrainNode (healthy []);
       TerminateInstance := TerminateInstance (healthy []);
       ValidateCluster := ValidateCluster (healthy []) |}
    defaults
  = ([Call_Clientset; Call_GetCluster "k8s.example.com";
      Call_ClientConfig "prod"],
     inl (cannot_load_kubecfg_settings "prod"
            (collaborator_error "no such context"))).
Proof.
  apply (kubecfg_error _ defaults (clientset_handle 1)
           {| api.ClusterObjectName := "prod" |}
           (collaborator_error "no such context")); reflexivity.
Defined.

(** X20.  Without [CloudOnly], when the kube client cannot be built, the
    command returns "cannot build kube client for <name>: <err>" and
    stops before listing the nodes; the advice to use --cloudonly is not
    printed in this case. *)
Theorem kube_client_error (w : World) (o : RollingUpdateOptions)
    (t : list Event) (s : Session) (err : error) :
  CloudOnly o = false ->
  loadConfig w o = (t, inr s) ->
  NewForConfig w (config s) = inl err ->
  RunRollingUpdateCluster w o
  = (t ++ [Call_NewForConfig (config s)],
     inl (cannot_build_kube_client (api.ClusterObjectName (cluster s)) err)).
Proof.
  intros Hcloud Hload Hnew. unfold RunRollingUpdateCluster, discovery.
  rewrite Hload. cbn [bind fst snd]. unfold listNodes.
  rewrite Hcloud, Hnew. reflexivity.
Qed.

Lemma kube_client_error_witness :
  RunRollingUpdateCluster
    {| Factory_Clientset := Factory_Clientset (healthy []);
       GetCluster := GetCluster (healthy []);
       ClientConfig := ClientConfig (healthy []);
       NewForConfig := fun _ => inl (collaborator_error "bad certificate");
       Nodes_List := Nodes_List (healthy []);
       InstanceGroups_List := InstanceGroups_List (healthy []);
       BuildCloud := BuildCloud (healthy []);
       GetCloudGroups := GetCloudGroups (healthy []);
       Table_Render := Table_Render (healthy []);
       DrainAndValidateRollingUpdate_Enabled := false;
       DrainNode := DrainNode (healthy []);
       TerminateInstance := TerminateInstance (healthy []);
       ValidateCluster := ValidateCluster (healthy []) |}
    defaults
  = ([Call_Clientset; Call_GetCluster "k8s.example.com";
      Call_ClientConfig "k8s.example.com"]
       ++ [Call_NewForConfig (config_handle 2)],
     inl (cannot_build_kube_client "k8s.example.com"
            (collaborator_error "bad certificate"))).
Proof.
  apply (kube_client_error _ defaults
           [Call_Clientset; Call_GetCluster "k8s.example.com";
            Call_ClientConfig "k8s.example.com"]
           {| clientset := clientset_handle 1;
              cluster := {| api.ClusterObjectName := "k8s.example.com" |};
              config := config_handle 2 |}
           (collaborator_error "bad certificate")); reflexivity.
Defined.

(** X21.  Without [CloudOnly], the nodes given to [GetCloudGroups] are
    the items of the node list the cluster API returned, and none when
    that list is nil. *)
Theorem listed_nodes_reach_the_cloud (w : World) (o : RollingUpdateOptions)
    (igs : list InstanceGroupPtr) (warn : bool) (ns : list v1.Node) :
  CloudOnly o = false ->
  Call_GetCloudGroups igs warn ns ∈ trace (RunRollingUpdateCluster w o) ->
  exists s k,
    result (loadConfig w o) = inr s
    /\ NewForConfig w (config s) = inr k
    /\ Call_Nodes_List k ∈ trace (RunRollingUpdateCluster w o)
    /\ (Nodes_List w k = inr (Some ns)
        \/ Nodes_List w k = inr None /\ ns = []).
Proof.
  intros Hcloud H. pose proof H as Hcall.
  apply GetCloudGroups_call in Hcall
    as (s & n & items & tg & Hs & Hn & _ & _ & _ & _ & ->).
  exists s. unfold listNodes in Hn. rewrite Hcloud in Hn.
  destruct (NewForConfig w (config s)) as [e | k] eqn:Hk; [discriminate |].
  cbn [bind call wrap emit fst snd result] in Hn.
  destruct (Nodes_List w k) as [e | nodeList] eqn:Hl; [discriminate |].
  cbn [ret snd] in Hn. injection Hn as <-. exists k. split_and!; try done.
  - unfold RunRollingUpdateCluster, discovery.
    rewrite trace_bind, elem_of_app. left.
    rewrite trace_bind, elem_of_app, Hs. right.
    rewrite trace_bind, elem_of_app. left.
    unfold listNodes. rewrite Hcloud, Hk. cbn [bind call wrap emit fst snd trace].
    apply list_elem_of_further, list_elem_of_here.
  - cbn [nodes]. destruct nodeList; [now left | now right].
Qed.

Lemma listed_nodes_reach_the_cloud_witness :
  exists s k,
    result (loadConfig (healthy stale_cluster) defaults) = inr s
    /\ NewForConfig (healthy stale_cluster) (config s) = inr k
    /\ Call_Nodes_List k
         ∈ trace (RunRollingUpdateCluster (healthy stale_cluster) defaults)
    /\ (Nodes_List (healthy stale_cluster) k
        = inr (Some [ {| v1.NodeName := "ip-10-0-0-1" |} ])
        \/ Nodes_List (healthy stale_cluster) k = inr None
           /\ [ {| v1.NodeName := "ip-10-0-0-1" |} ] = []).
Proof.
  apply (listed_nodes_reach_the_cloud (healthy stale_cluster) defaults
           [0; 1; 2] true).
  - reflexivity.
  - vm_compute. do 7 apply list_elem_of_further. apply list_elem_of_here.
Defined.
